(** * seqtools.indexing: reordering, cycling and repetition views

    A shallow embedding of [seqtools/indexing.py] and the proofs of its
    documented properties.  The views never copy the sequence they wrap:
    base lists live in a store and a view holds a reference into it, so a
    write through a view is seen by every other holder of the reference. *)

From Stdlib Require Import ZArith Lia.
From stdpp Require Import base option list gmap.

Local Open Scope Z_scope.

(** ** The host language *)

(** Exceptions raised by the module or by the builtins it calls. *)
Inductive exn :=
| IndexError | TypeError | ValueError | ZeroDivisionError | OverflowError
| ReferenceError.

Inductive result (A : Type) :=
| Ok (a : A)
| Err (e : exn).
Arguments Ok {A} a.
Arguments Err {A} e.

#[global] Instance result_ret : MRet result := fun _ a => Ok a.
#[global] Instance result_bind : MBind result := fun _ _ f m =>
  match m with Ok a => f a | Err e => Err e end.

(** [array('l', gen)] and the comprehension of a generator: the first
    element that raises ends the traversal. *)
Fixpoint traverse {A B} (f : A -> result B) (xs : list A) : result (list B) :=
  match xs with
  | [] => Ok []
  | x :: xs' => y ← f x; ys ← traverse f xs'; Ok (y :: ys)
  end.

(** Python values: the universe the sequences hold and the factories
    receive.  A [VSeq] is a finite sequence (a list or a tuple) taken by
    value, as the right-hand side of a slice assignment is. *)
#[warnings="-register-all"]
Inductive val :=
| VNone
| VInt (n : Z)
| VSeq (items : list val).

(** Subscript keys: [key.start], [key.stop] and [key.step] of a slice are
    [None] or integers. *)
Inductive key :=
| KInt (i : Z)
| KSlice (start stop step : option Z)
| KOther.

Definition len {A} (xs : list A) : Z := Z.of_nat (length xs).

(** [a % b] on integers: floored, with the sign of [b]. *)
Definition py_mod (a b : Z) : result Z :=
  if b =? 0 then Err ZeroDivisionError else Ok (a mod b).

(** [a // b]. *)
Definition py_floordiv (a b : Z) : result Z :=
  if b =? 0 then Err ZeroDivisionError else Ok (a / b).

(** [int(x)]. *)
Definition py_int (x : val) : result Z :=
  match x with
  | VInt n => Ok n
  | _ => Err TypeError
  end.

(** [len(x)] of a value. *)
Definition val_len (x : val) : result Z :=
  match x with
  | VSeq items => Ok (len items)
  | _ => Err TypeError
  end.

(** The position a builtin sequence of length [n] gives to index [i]:
    a negative index counts from the end. *)
Definition resolve (n i : Z) : Z := if i <? 0 then n + i else i.

(** [xs[i]] on a builtin list (or array), integer [i]. *)
Definition list_getitem {A} (xs : list A) (i : Z) : result A :=
  if (i <? - len xs) || (len xs <=? i) then Err IndexError
  else
    match xs !! Z.to_nat (resolve (len xs) i) with
    | Some x => Ok x
    | None => Err IndexError
    end.

(** [xs[i] = v] on a builtin list. *)
Definition list_setitem {A} (xs : list A) (i : Z) (v : A) : result (list A) :=
  if (i <? - len xs) || (len xs <=? i) then Err IndexError
  else Ok (<[Z.to_nat (resolve (len xs) i) := v]> xs).

(** [x[i]] on a value. *)
Definition val_getitem (x : val) (i : Z) : result val :=
  match x with
  | VSeq items => list_getitem items i
  | _ => Err TypeError
  end.

(** [slice(start, stop, step).indices(n)]. *)
Definition slice_indices (start stop step : option Z) (n : Z)
  : result (Z * Z * Z) :=
  let step := default 1 step in
  if step =? 0 then Err ValueError
  else
    let lower := if step <? 0 then -1 else 0 in
    let upper := if step <? 0 then n - 1 else n in
    let clamp (x : Z) :=
      if x <? 0 then Z.max (x + n) lower else Z.min x upper in
    let start :=
      match start with
      | None => if step <? 0 then upper else lower
      | Some x => clamp x
      end in
    let stop :=
      match stop with
      | None => if step <? 0 then lower else upper
      | Some x => clamp x
      end in
    Ok (start, stop, step).

(** [len(range(lo, hi, step))]. *)
Definition range_len (lo hi step : Z) : Z :=
  if 0 <? step then
    if lo <? hi then (hi - lo - 1) / step + 1 else 0
  else if step <? 0 then
    if hi <? lo then (lo - hi - 1) / (- step) + 1 else 0
  else 0.

(** [list(range(lo, hi, step))]. *)
Definition py_range (lo hi step : Z) : list Z :=
  map (fun i : nat => lo + Z.of_nat i * step)
      (seq 0 (Z.to_nat (range_len lo hi step))).

(** [xs[start:stop:step]] on a builtin list (or array). *)
Definition list_getslice {A} (xs : list A) (start stop step : option Z)
  : result (list A) :=
  '(lo, hi, st) ← slice_indices start stop step (len xs);
  traverse (list_getitem xs) (py_range lo hi st).

(** An item of [array('l', ...)] is a C long; a value that does not fit
    raises. *)
Definition LONG_MIN : Z := - 2 ^ 63.
Definition LONG_MAX : Z := 2 ^ 63 - 1.

Definition as_long (x : Z) : result Z :=
  if (x <? LONG_MIN) || (LONG_MAX <? x) then Err OverflowError else Ok x.

(** ** Objects *)

Definition loc := nat.

(** The sequences a view can wrap: a list of the store, or a finite view. *)
Inductive pyseq :=
| Ref (l : loc)
| Reindexing (sequence : pyseq) (indexes : list Z)
| Cycle (sequence : pyseq) (size : Z).
Arguments Ref l%_nat.

(** What a subscript or a factory returns. *)
Inductive pyobj :=
| OVal (v : val)
| OList (items : list val)
| OSeq (s : pyseq)
| InfiniteCycle (sequence : pyseq)
| Repetition (object : val) (times : Z)
| InfiniteRepetition (value : val).

Abbreviation store := (gmap loc (list val)).

Definition deref (h : store) (l : loc) : result (list val) :=
  match h !! l with
  | Some xs => Ok xs
  | None => Err ReferenceError
  end.

(** A command on the store: the store it leaves and the exception it
    raised, if any.  What was written before a raise stays written. *)
Definition cmd := store -> store * option exn.

Definition done_cmd : cmd := fun h => (h, None).
Definition raise (e : exn) : cmd := fun h => (h, Some e).

(** ** Reindexing *)

Definition Reindexing_init (sequence : pyseq) (indexes : list Z)
  : result pyseq :=
  match sequence with
  | Reindexing sequence0 indexes0 =>
      indexes' ← traverse (fun i => x ← list_getitem indexes0 i; as_long x)
                          indexes;
      Ok (Reindexing sequence0 indexes')
  | _ => Ok (Reindexing sequence indexes)
  end.

Definition Reindexing_len (indexes : list Z) : Z := len indexes.

(** The integer branch of [Reindexing.__getitem__]; [sub] is the subscript
    of [self.sequence]. *)
Definition Reindexing_getitem_int (sub : Z -> result val)
    (indexes : list Z) (key : Z) : result val :=
  if (key <? - Reindexing_len indexes) || (Reindexing_len indexes <=? key)
  then Err IndexError
  else
    let key := if key <? 0 then Reindexing_len indexes + key else key in
    i ← list_getitem indexes key;
    sub i.

(** The integer branch of [Reindexing.__setitem__]; [asg] is the item
    assignment of [self.sequence]. *)
Definition Reindexing_setitem_int (asg : Z -> val -> cmd)
    (indexes : list Z) (key : Z) (value : val) : cmd :=
  if (key <? - Reindexing_len indexes) || (Reindexing_len indexes <=? key)
  then raise IndexError
  else
    let key := if key <? 0 then Reindexing_len indexes + key else key in
    match list_getitem indexes key with
    | Ok i => asg i value
    | Err e => raise e
    end.

(** ** Cycle *)

(** Modelled from the spec: [basic_getitem], [basic_setitem] and [isint]
    are defined in [seqtools/common.py], which is not among the sources.
    An integer key follows the shared bounds-check convention of the
    bounded views: out of [[-length, length)] is an index error, a negative
    key resolves to [length + key], and the wrapped method receives the
    resolved key.  A slice key resolves like the slice of a plain sequence
    of that length and gives the items at the selected positions, in order.
    Any other key is a type error. *)
Definition basic_getitem_int (length : result Z) (func : Z -> result val)
    (key : Z) : result val :=
  n ← length;
  if (key <? - n) || (n <=? key) then Err IndexError
  else func (if key <? 0 then n + key else key).

Definition basic_getitem (length : result Z) (func : Z -> result val)
    (k : key) : result pyobj :=
  match k with
  | KSlice start stop step =>
      n ← length;
      '(lo, hi, st) ← slice_indices start stop step n;
      items ← traverse func (py_range lo hi st);
      Ok (OList items)
  | KInt i => v ← basic_getitem_int length func i; Ok (OVal v)
  | KOther => Err TypeError
  end.

(** Modelled from the spec: the integer branch of [basic_setitem], under
    the same convention. *)
Definition basic_setitem_int (length : result Z) (func : Z -> val -> cmd)
    (key : Z) (value : val) : cmd :=
  match length with
  | Err e => raise e
  | Ok n =>
      if (key <? - n) || (n <=? key) then raise IndexError
      else func (if key <? 0 then n + key else key) value
  end.

Definition Cycle_init (sequence : pyseq) (size : val) : result pyseq :=
  n ← py_int size;
  Ok (Cycle sequence n).

(** The largest length the interpreter accepts, [sys.maxsize]. *)
Definition PY_SSIZE_T_MAX : Z := 2 ^ 63 - 1.

(** [len(self)]: the interpreter rejects a negative [__len__], then one
    that does not fit an index. *)
Definition Cycle_len (size : Z) : result Z :=
  if size <? 0 then Err ValueError
  else if PY_SSIZE_T_MAX <? size then Err OverflowError
  else Ok size.

(** The body of [Cycle.__getitem__]: [seq_len] is [len(self.sequence)]. *)
Definition Cycle_getitem_body (seq_len : result Z) (sub : Z -> result val)
    (key : Z) : result val :=
  n ← seq_len;
  r ← py_mod key n;
  sub r.

(** The body of [Cycle.__setitem__]. *)
Definition Cycle_setitem_body (seq_len : result Z) (asg : Z -> val -> cmd)
    (key : Z) (value : val) : cmd :=
  match seq_len with
  | Err e => raise e
  | Ok n =>
      match py_mod key n with
      | Err e => raise e
      | Ok r => asg r value
      end
  end.

(** ** Dispatch on the wrapped sequence *)

(** [len(s)]. *)
Definition py_len (h : store) (s : pyseq) : result Z :=
  match s with
  | Ref l => xs ← deref h l; Ok (len xs)
  | Reindexing _ indexes => Ok (Reindexing_len indexes)
  | Cycle _ size => Cycle_len size
  end.

(** [s[i]] for an integer [i]. *)
Fixpoint subscript (h : store) (s : pyseq) (i : Z) {struct s} : result val :=
  match s with
  | Ref l => xs ← deref h l; list_getitem xs i
  | Reindexing sequence indexes =>
      Reindexing_getitem_int (subscript h sequence) indexes i
  | Cycle sequence size =>
      basic_getitem_int (Cycle_len size)
        (Cycle_getitem_body (py_len h sequence) (subscript h sequence)) i
  end.

(** [s[i] = v] for an integer [i]. *)
Fixpoint assign (s : pyseq) (i : Z) (v : val) (h : store) {struct s}
  : store * option exn :=
  match s with
  | Ref l =>
      match deref h l with
      | Err e => (h, Some e)
      | Ok xs =>
          match list_setitem xs i v with
          | Err e => (h, Some e)
          | Ok xs' => (<[l := xs']> h, None)
          end
      end
  | Reindexing sequence indexes =>
      Reindexing_setitem_int (assign sequence) indexes i v h
  | Cycle sequence size =>
      basic_setitem_int (Cycle_len size)
        (Cycle_setitem_body (py_len h sequence) (assign sequence)) i v h
  end.

(** ** The methods, on any key *)

Definition Reindexing_getitem (h : store) (sequence : pyseq)
    (indexes : list Z) (k : key) : result pyobj :=
  match k with
  | KSlice start stop step =>
      sel ← list_getslice indexes start stop step;
      r ← Reindexing_init sequence sel;
      Ok (OSeq r)
  | KInt i =>
      v ← Reindexing_getitem_int (subscript h sequence) indexes i;
      Ok (OVal v)
  | KOther => Err TypeError
  end.

(** [for i, v in zip(indexes, value): self.sequence[i] = v]. *)
Fixpoint zip_assign (asg : Z -> val -> cmd) (pairs : list (Z * val)) : cmd :=
  match pairs with
  | [] => done_cmd
  | (i, v) :: rest =>
      fun h =>
        match asg i v h with
        | (h', None) => zip_assign asg rest h'
        | (h', Some e) => (h', Some e)
        end
  end.

(** The items an iteration over a value yields. *)
Definition val_iter (x : val) : result (list val) :=
  match x with
  | VSeq items => Ok items
  | _ => Err TypeError
  end.

Definition Reindexing_setitem (sequence : pyseq) (indexes : list Z)
    (k : key) (value : val) : cmd :=
  match k with
  | KSlice start stop step =>
      match list_getslice indexes start stop step with
      | Err e => raise e
      | Ok sel =>
          match val_len value with
          | Err e => raise e
          | Ok n =>
              if negb (len sel =? n) then raise ValueError
              else
                match val_iter value with
                | Err e => raise e
                | Ok items => zip_assign (assign sequence) (zip sel items)
                end
          end
      end
  | KInt i => Reindexing_setitem_int (assign sequence) indexes i value
  | KOther => raise TypeError
  end.

Definition take (sequence : pyseq) (indexes : list Z) : result pyseq :=
  Reindexing_init sequence indexes.

Definition Cycle_getitem (h : store) (sequence : pyseq) (size : Z) (k : key)
  : result pyobj :=
  basic_getitem (Cycle_len size)
    (Cycle_getitem_body (py_len h sequence) (subscript h sequence)) k.

(** [s[k]] for any key, by the class of [s]. *)
Definition getitem (h : store) (s : pyseq) (k : key) : result pyobj :=
  match s with
  | Ref l =>
      xs ← deref h l;
      match k with
      | KInt i => v ← list_getitem xs i; Ok (OVal v)
      | KSlice start stop step =>
          items ← list_getslice xs start stop step; Ok (OList items)
      | KOther => Err TypeError
      end
  | Reindexing sequence indexes => Reindexing_getitem h sequence indexes k
  | Cycle sequence size => Cycle_getitem h sequence size k
  end.

Definition InfiniteCycle_getitem (h : store) (sequence : pyseq) (k : key)
  : result pyobj :=
  match k with
  | KSlice start stop step =>
      let start := default 0 start in
      if start <? 0 then Err IndexError
      else
        match stop with
        | None => Err IndexError
        | Some stop =>
            if stop <? 0 then Err IndexError
            else
              n ← py_len h sequence;
              r ← py_mod start n;
              let offset := start - r in
              let start := start - offset in
              let stop := stop - offset in
              c ← Cycle_init sequence (VInt stop);
              getitem h c (KSlice (Some start) (Some stop) step)
        end
  | KInt i =>
      if i <? 0 then Err IndexError
      else
        n ← py_len h sequence;
        r ← py_mod i n;
        v ← subscript h sequence r;
        Ok (OVal v)
  | KOther => Err TypeError
  end.

Definition cycle (sequence : pyseq) (limit : val) : result pyobj :=
  match limit with
  | VNone => Ok (InfiniteCycle sequence)
  | _ => c ← Cycle_init sequence limit; Ok (OSeq c)
  end.

(** ** Repetition *)

(** Modelled from the spec: [isint] of [seqtools/common.py] holds of the
    integers only. *)
Definition isint (x : val) : bool :=
  match x with
  | VInt _ => true
  | _ => false
  end.

Definition repeat (value times : val) : result pyobj :=
  match times with
  | VInt n =>
      if isint times && (1 <? n) then Ok (Repetition value n)
      else Err TypeError
  | VNone => Ok (InfiniteRepetition value)
  | VSeq _ => Err TypeError
  end.

Definition InfiniteRepetition_getitem (value : val) (k : key)
  : result pyobj :=
  match k with
  | KSlice start stop step =>
      let start := default 0 start in
      let step := default 1 step in
      if start <? 0 then Err IndexError
      else
        match stop with
        | None => Err IndexError
        | Some stop =>
            if stop <? 0 then Err IndexError
            else if step =? 0 then Err ValueError
            else if (stop - start) * step <=? 0 then Ok (OList [])
            else
              stop' ← (if 0 <? step
                       then r ← py_mod (step + stop - start) step;
                            Ok (stop + r)
                       else r ← py_mod (- step + start - stop) (- step);
                            Ok (stop - r));
              q ← py_floordiv (stop' - start) step;
              repeat value (VInt q)
        end
  | KInt i => if i <? 0 then Err IndexError else Ok (OVal value)
  | KOther => Err TypeError
  end.

(** [InfiniteRepetition.__setitem__]: the stored value it leaves and the
    exception it raised, if any.  [key.start] is compared as it is: the
    ordering of [None] against an integer raises. *)
Definition InfiniteRepetition_setitem (self_value : val) (k : key)
    (value : val) : val * option exn :=
  match k with
  | KSlice start stop step =>
      let step := default 1 step in
      match start with
      | None => (self_value, Some TypeError)
      | Some start =>
          if start <? 0 then (self_value, Some IndexError)
          else
            match stop with
            | None => (self_value, Some IndexError)
            | Some stop =>
                if stop <? 0 then (self_value, Some IndexError)
                else if step =? 0 then (self_value, Some ValueError)
                else if 0 <? (stop - start) * step then
                  match val_getitem value (-1) with
                  | Ok last => (last, None)
                  | Err e => (self_value, Some e)
                  end
                else (self_value, None)
            end
      end
  | KInt i =>
      if i <? 0 then (self_value, Some IndexError) else (value, None)
  | KOther => (self_value, Some TypeError)
  end.

(** ** Reference behaviour *)

#[global] Instance val_inhabited : Inhabited val := populate VNone.

(** [[S[(a + i) % len(S)] for i in range(b - a)]]. *)
Definition cycle_slice_spec (S : list val) (a b : Z) : list val :=
  map (fun i : nat => S !!! Z.to_nat ((a + Z.of_nat i) mod len S))
      (seq 0 (Z.to_nat (b - a))).

(** One write [S[i] = v] on a list of length [n], for an index known to
    be valid. *)
Definition write_pair (n : Z) (acc : list val) (p : Z * val) : list val :=
  <[Z.to_nat (resolve n p.1) := p.2]> acc.

(** The position of [S] that index [i] names, the pairs whose indexes are
    valid for [S], and [S] after the pairs are written in order. *)
Definition pos (S : list val) (i : Z) : nat := Z.to_nat (resolve (len S) i).
Definition valid (S : list val) (pairs : list (Z * val)) : Prop :=
  Forall (fun p => - len S <= p.1 < len S) pairs.
Definition final (S : list val) (pairs : list (Z * val)) : list val :=
  foldl (write_pair (len S)) S pairs.

(** ** Iteration and shape of the views *)

(** [Cycle.__iter__] run to its end: the items it yields, or the exception
    that ends it. *)
Definition Cycle_iter (h : store) (sequence : pyseq) (size : Z)
  : result (list val) :=
  traverse (Cycle_getitem_body (py_len h sequence) (subscript h sequence))
           (py_range 0 size 1).

(** [InfiniteCycle.__iter__]: the first [n] items it yields, [i] running
    over [itertools.count()]. *)
Definition InfiniteCycle_iter (h : store) (sequence : pyseq) (n : nat)
  : result (list val) :=
  traverse (Cycle_getitem_body (py_len h sequence) (subscript h sequence))
           (map Z.of_nat (seq 0 n)).

(** A view that is not a [Reindexing] of a [Reindexing]. *)
Definition flat (s : pyseq) : Prop :=
  match s with
  | Reindexing (Reindexing _ _) _ => False
  | _ => True
  end.

(** The slice length the unbounded repetition computes for a non-empty
    progression: [stop] rounded, then the floored quotient. *)
Definition rounded_count (start stop step : Z) : Z :=
  if 0 <? step then (stop + (step + stop - start) mod step - start) / step
  else (stop - (- step + start - stop) mod (- step) - start) / step.

(** ** Concrete scenarios *)

Definition S0 : list val := [VInt 10; VInt 20; VInt 30; VInt 40].
Definition h0 : store := {[ 0%nat := S0 ]}.

Example take_scenario_get :
  Reindexing_getitem h0 (Ref 0) [3; 0; 1] (KInt 0) = Ok (OVal (VInt 40))
  /\ Reindexing_getitem h0 (Ref 0) [3; 0; 1] (KInt (-1)) = Ok (OVal (VInt 20)).
Proof. split; vm_compute; reflexivity. Qed.

Example take_scenario_set :
  let '(h, e) := Reindexing_setitem (Ref 0) [3; 0; 1] (KInt 1) (VInt 99) h0 in
  e = None /\ h !! 0%nat = Some [VInt 99; VInt 20; VInt 30; VInt 40].
Proof. vm_compute. split; reflexivity. Qed.

Example cycle_scenario :
  Cycle_getitem {[ 0%nat := [VInt 1; VInt 2; VInt 3] ]} (Ref 0) 7
    (KSlice None None None)
  = Ok (OList [VInt 1; VInt 2; VInt 3; VInt 1; VInt 2; VInt 3; VInt 1]).
Proof. vm_compute. reflexivity. Qed.

Example list_getslice_scenarios :
  list_getslice [10; 20; 30; 40] None None (Some (-1)) = Ok [40; 30; 20; 10]
  /\ list_getslice [10; 20; 30; 40] (Some 1) None None = Ok [20; 30; 40]
  /\ list_getslice [10; 20; 30; 40] (Some (-3)) (Some 9) (Some 2)
     = Ok [20; 40]
  /\ list_getslice [10; 20; 30; 40] (Some 9) (Some (-9)) (Some (-2))
     = Ok [40; 20]
  /\ list_getslice [10; 20; 30; 40] None None (Some 0) = Err ValueError.
Proof. vm_compute. repeat split; reflexivity. Qed.

Example repeat_scenario :
  InfiniteRepetition_getitem (VInt 5) (KSlice (Some 2) (Some 9) (Some 2))
  = Ok (Repetition (VInt 5) 4).
Proof. vm_compute. reflexivity. Qed.

(** ** Builtin sequences *)

(** Case analysis on the integer comparisons of the goal, closing the
    branches arithmetic refutes. *)
Ltac cmp_cases :=
  repeat match goal with
         | |- context [Z.ltb ?a ?b] => destruct (Z.ltb_spec a b); try lia
         | |- context [Z.leb ?a ?b] => destruct (Z.leb_spec a b); try lia
         | |- context [Z.eqb ?a ?b] => destruct (Z.eqb_spec a b); try lia
         end;
  cbn [orb andb negb].

Lemma len_nonneg {A} (xs : list A) : 0 <= len xs.
Proof. unfold len. lia. Qed.

Lemma list_getitem_lookup {A} (xs : list A) (i : Z) (x : A) :
  0 <= i -> xs !! Z.to_nat i = Some x -> list_getitem xs i = Ok x.
Proof.
  intros Hi Hx. unfold list_getitem, resolve.
  pose proof (lookup_lt_Some _ _ _ Hx) as Hlt.
  pose proof (len_nonneg xs) as Hn. unfold len in *.
  cmp_cases. now rewrite Hx.
Qed.

Lemma list_getitem_in_range {A} (xs : list A) (i : Z) :
  0 <= i < len xs ->
  exists x, xs !! Z.to_nat i = Some x /\ list_getitem xs i = Ok x.
Proof.
  intros Hi. unfold len in Hi.
  destruct (lookup_lt_is_Some_2 xs (Z.to_nat i)) as [x Hx]; [lia|].
  exists x. split; [done|]. apply list_getitem_lookup; [lia|done].
Qed.

Lemma resolve_nonneg (n i : Z) : 0 <= i -> resolve n i = i.
Proof. intros Hi. unfold resolve. cmp_cases. Qed.

Lemma resolve_range (n i : Z) : - n <= i < n -> 0 <= resolve n i < n.
Proof. intros Hi. unfold resolve. destruct (i <? 0) eqn:E; lia. Qed.

Lemma list_setitem_valid {A} (xs : list A) (i : Z) (v : A) :
  - len xs <= i < len xs ->
  list_setitem xs i v = Ok (<[Z.to_nat (resolve (len xs) i) := v]> xs).
Proof.
  intros Hi. unfold list_setitem. cmp_cases. reflexivity.
Qed.

Lemma deref_lookup (h : store) (l : loc) (S : list val) :
  h !! l = Some S -> deref h l = Ok S.
Proof. intros H. unfold deref. now rewrite H. Qed.

(** ** Reindexing: reads and writes by integer *)

Lemma Reindexing_getitem_int_in_range (sub : Z -> result val)
    (I : list Z) (k i : Z) :
  0 <= k -> I !! Z.to_nat k = Some i ->
  Reindexing_getitem_int sub I k = sub i.
Proof.
  intros Hk Hi. unfold Reindexing_getitem_int, Reindexing_len.
  pose proof (lookup_lt_Some _ _ _ Hi) as Hlt. unfold len. cmp_cases.
  rewrite (list_getitem_lookup I k i); [reflexivity|lia|done].
Qed.

Lemma Reindexing_setitem_int_in_range (asg : Z -> val -> cmd)
    (I : list Z) (k i : Z) (v : val) (h : store) :
  0 <= k -> I !! Z.to_nat k = Some i ->
  Reindexing_setitem_int asg I k v h = asg i v h.
Proof.
  intros Hk Hi. unfold Reindexing_setitem_int, Reindexing_len.
  pose proof (lookup_lt_Some _ _ _ Hi) as Hlt. unfold len. cmp_cases.
  rewrite (list_getitem_lookup I k i); [reflexivity|lia|done].
Qed.

Lemma assign_Ref_valid (h : store) (l : loc) (S : list val) (i : Z)
    (v : val) :
  h !! l = Some S -> - len S <= i < len S ->
  assign (Ref l) i v h
  = (<[l := <[Z.to_nat (resolve (len S) i) := v]> S]> h, None).
Proof.
  intros Hl Hi. cbn. rewrite (deref_lookup _ _ _ Hl).
  now rewrite list_setitem_valid.
Qed.

Lemma assign_Ref_in_range (h : store) (l : loc) (S : list val) (i : Z)
    (v : val) :
  h !! l = Some S -> 0 <= i < len S ->
  assign (Ref l) i v h = (<[l := <[Z.to_nat i := v]> S]> h, None).
Proof.
  intros Hl Hi. rewrite (assign_Ref_valid h l S i v Hl) by lia.
  rewrite resolve_nonneg by lia. reflexivity.
Qed.

(** C1: for a base list [S] of the store, an index list [I] with entries
    in [[0, len S)] and a position [0 <= k < len I], [take(S, I)[k]] returns
    [S[I[k]]], and [take(S, I)[k] = v] stores [v] at position [I[k]] of [S]
    itself: the list at the base's own location is updated, and reading
    [S[I[k]]] through the base then gives [v]. *)
Theorem take_reads_and_writes_through (h : store) (l : loc) (S : list val)
    (I : list Z) (k : Z) (v : val) :
  h !! l = Some S ->
  Forall (fun i => 0 <= i < len S) I ->
  0 <= k < len I ->
  exists i x,
    I !! Z.to_nat k = Some i /\ S !! Z.to_nat i = Some x /\
    take (Ref l) I = Ok (Reindexing (Ref l) I) /\
    Reindexing_getitem h (Ref l) I (KInt k) = Ok (OVal x) /\
    Reindexing_setitem (Ref l) I (KInt k) v h
      = (<[l := <[Z.to_nat i := v]> S]> h, None) /\
    subscript (<[l := <[Z.to_nat i := v]> S]> h) (Ref l) i = Ok v.
Proof.
  intros Hl HI Hk.
  destruct (list_getitem_in_range I k Hk) as (i & Hi & _).
  pose proof (Forall_lookup_1 _ _ _ _ HI Hi) as Hir. cbn in Hir.
  destruct (list_getitem_in_range S i Hir) as (x & Hx & Hgx).
  exists i, x. repeat split; try done.
  - cbn. rewrite (Reindexing_getitem_int_in_range _ I k i); [|lia|done].
    cbn. rewrite (deref_lookup _ _ _ Hl). cbn. now rewrite Hgx.
  - cbn. rewrite (Reindexing_setitem_int_in_range _ I k i); [|lia|done].
    now apply assign_Ref_in_range.
  - cbn. unfold deref. rewrite lookup_insert_eq. cbn.
    apply list_getitem_lookup; [lia|].
    apply list_lookup_insert_eq. now apply lookup_lt_Some in Hx.
Qed.

Lemma take_reads_and_writes_through_witness :
  exists i x,
    [3; 0; 1] !! Z.to_nat 1 = Some i /\ S0 !! Z.to_nat i = Some x /\
    take (Ref 0) [3; 0; 1] = Ok (Reindexing (Ref 0) [3; 0; 1]) /\
    Reindexing_getitem h0 (Ref 0) [3; 0; 1] (KInt 1) = Ok (OVal x) /\
    Reindexing_setitem (Ref 0) [3; 0; 1] (KInt 1) (VInt 99) h0
      = (<[0%nat := <[Z.to_nat i := VInt 99]> S0]> h0, None) /\
    subscript (<[0%nat := <[Z.to_nat i := VInt 99]> S0]> h0) (Ref 0) i
      = Ok (VInt 99).
Proof.
  apply (take_reads_and_writes_through h0 0%nat S0 [3; 0; 1] 1 (VInt 99)).
  - reflexivity.
  - repeat constructor; vm_compute; discriminate.
  - vm_compute. split; [discriminate | reflexivity].
Defined.

(** ** Reindexing: nested construction *)

Lemma compose_indexes (I J : list Z) (bound : Z) :
  Forall (fun i => 0 <= i < bound) I ->
  bound <= LONG_MAX + 1 ->
  Forall (fun j => 0 <= j < len I) J ->
  exists IJ,
    traverse (fun j => x ← list_getitem I j; as_long x) J = Ok IJ /\
    Forall2 (fun j i => I !! Z.to_nat j = Some i) J IJ.
Proof.
  intros HI Hb HJ. induction HJ as [|j J Hj _ (IJ & Htr & Hall)].
  - exists []. split; [reflexivity | constructor].
  - destruct (list_getitem_in_range I j Hj) as (i & Hi & Hgi).
    pose proof (Forall_lookup_1 _ _ _ _ HI Hi) as Hir. cbn in Hir.
    exists (i :: IJ). split; [|now constructor].
    assert (as_long i = Ok i) as Hlong.
    { unfold as_long.
      destruct (i <? LONG_MIN) eqn:E1; [unfold LONG_MIN in *; lia|].
      destruct (LONG_MAX <? i) eqn:E2; [lia|]. reflexivity. }
    cbn [traverse]. rewrite Hgi. cbn [mbind result_bind].
    rewrite Hlong, Htr. reflexivity.
Qed.

(** C2: for a base list [S] of the store and index lists [I] into [S] and
    [J] into [I], the nested construction [take(take(S, I), J)] is a view
    whose base is [S] itself and whose index list is the composition
    [[I[j] for j in J]] (no view of a view), and its item [k] is
    [S[I[J[k]]]] for every position [k] of [J].  ([len S] fits the C long
    the composed [array('l')] stores, as it does for every list in
    memory.) *)
Theorem take_take_composes_and_flattens (h : store) (l : loc)
    (S : list val) (I J : list Z) (k : Z) :
  h !! l = Some S ->
  len S <= LONG_MAX + 1 ->
  Forall (fun i => 0 <= i < len S) I ->
  Forall (fun j => 0 <= j < len I) J ->
  0 <= k < len J ->
  exists IJ,
    (V ← take (Ref l) I; take V J) = Ok (Reindexing (Ref l) IJ) /\
    Forall2 (fun j i => I !! Z.to_nat j = Some i) J IJ /\
    exists j i x,
      J !! Z.to_nat k = Some j /\ I !! Z.to_nat j = Some i /\
      S !! Z.to_nat i = Some x /\
      Reindexing_getitem h (Ref l) IJ (KInt k) = Ok (OVal x).
Proof.
  intros Hl Hmem HI HJ Hk.
  destruct (compose_indexes I J (len S) HI Hmem HJ) as (IJ & Htr & Hall).
  exists IJ. split; [|split; [done|]].
  - unfold take. cbn [Reindexing_init mbind result_bind].
    rewrite Htr. reflexivity.
  - destruct (list_getitem_in_range J k Hk) as (j & Hj & _).
    destruct (Forall2_lookup_l _ _ _ _ _ Hall Hj) as (i & Hij & Hi).
    pose proof (Forall_lookup_1 _ _ _ _ HI Hi) as Hir. cbn in Hir.
    destruct (list_getitem_in_range S i Hir) as (x & Hx & Hgx).
    exists j, i, x. repeat split; try done.
    cbn. rewrite (Reindexing_getitem_int_in_range _ IJ k i); [|lia|done].
    cbn. rewrite (deref_lookup _ _ _ Hl). cbn. now rewrite Hgx.
Qed.

Lemma take_take_composes_and_flattens_witness :
  exists IJ,
    (V ← take (Ref 0) [3; 0; 1]; take V [2; 2; 0])
      = Ok (Reindexing (Ref 0) IJ) /\
    Forall2 (fun j i => [3; 0; 1] !! Z.to_nat j = Some i) [2; 2; 0] IJ /\
    exists j i x,
      [2; 2; 0] !! Z.to_nat 2 = Some j /\
      [3; 0; 1] !! Z.to_nat j = Some i /\
      S0 !! Z.to_nat i = Some x /\
      Reindexing_getitem h0 (Ref 0) IJ (KInt 2) = Ok (OVal x).
Proof.
  apply (take_take_composes_and_flattens h0 0%nat S0 [3; 0; 1] [2; 2; 0] 2).
  - reflexivity.
  - vm_compute. discriminate.
  - repeat constructor; vm_compute; discriminate.
  - repeat constructor; vm_compute; discriminate.
  - vm_compute. split; [discriminate | reflexivity].
Defined.

(** ** Reindexing: slice assignment *)

Lemma foldl_write_length (n : Z) (pairs : list (Z * val)) (S : list val) :
  length (foldl (write_pair n) S pairs) = length S.
Proof.
  revert S. induction pairs as [|p pairs IH]; intros S; [reflexivity|].
  cbn. rewrite IH. unfold write_pair. apply length_insert.
Qed.

Lemma zip_assign_Ref (l : loc) (n : Z) (pairs : list (Z * val)) :
  forall (h : store) (S : list val),
    h !! l = Some S -> len S = n ->
    Forall (fun p => - n <= p.1 < n) pairs ->
    zip_assign (assign (Ref l)) pairs h
    = (<[l := foldl (write_pair n) S pairs]> h, None).
Proof.
  induction pairs as [|[i v] pairs IH]; intros h S Hl Hn Hall.
  - cbn. unfold done_cmd. now rewrite insert_id.
  - apply Forall_cons in Hall as [Hi Hall]. cbn in Hi. subst n.
    cbn [zip_assign]. rewrite (assign_Ref_valid h l S i v Hl Hi).
    rewrite (IH _ (<[Z.to_nat (resolve (len S) i) := v]> S)).
    + now rewrite insert_insert_eq.
    + apply lookup_insert_eq.
    + unfold len. now rewrite length_insert.
    + done.
Qed.

Lemma pos_lt (S : list val) (pairs : list (Z * val)) (q : nat) (i : Z)
    (v : val) :
  valid S pairs -> pairs !! q = Some (i, v) -> (pos S i < length S)%nat.
Proof.
  intros Hvalid Hq. pose proof (Forall_lookup_1 _ _ _ _ Hvalid Hq) as Hi.
  cbn in Hi. pose proof (resolve_range _ _ Hi) as Hr.
  unfold pos, len in *. lia.
Qed.

Lemma final_snoc (S : list val) (ps : list (Z * val)) (j : Z) (w : val) :
  final S (ps ++ [(j, w)]) = <[pos S j := w]> (final S ps).
Proof. unfold final. now rewrite foldl_snoc. Qed.

Lemma foldl_write_last_wins (S : list val) (pairs : list (Z * val))
    (q : nat) (i : Z) (v : val) :
  valid S pairs ->
  pairs !! q = Some (i, v) ->
  (forall q' i' v', (q < q')%nat -> pairs !! q' = Some (i', v') ->
                    pos S i' <> pos S i) ->
  final S pairs !! pos S i = Some v.
Proof.
  induction pairs as [|[j w] ps IH] using rev_ind; intros Hall Hq Hlast.
  - discriminate.
  - rewrite final_snoc.
    destruct (decide (q = length ps)) as [->|Hne].
    + rewrite list_lookup_middle in Hq by reflexivity.
      injection Hq as -> ->.
      apply list_lookup_insert_eq. unfold final.
      rewrite foldl_write_length.
      eapply (pos_lt S _ (length ps)); [exact Hall|].
      now apply list_lookup_middle.
    + assert (q < length ps)%nat as Hlt.
      { apply lookup_lt_Some in Hq. rewrite length_app in Hq.
        cbn in Hq. lia. }
      rewrite lookup_app_l in Hq by done.
      rewrite list_lookup_insert_ne.
      * apply Forall_app in Hall as [Hall _].
        apply IH; [done|done|].
        intros q' i' v' Hq' Hw. apply (Hlast q' i' v' Hq').
        rewrite lookup_app_l; [done|]. now apply lookup_lt_Some in Hw.
      * apply (Hlast (length ps) j w); [lia|].
        now apply list_lookup_middle.
Qed.

Lemma foldl_write_holds_paired (S : list val) (pairs : list (Z * val))
    (q : nat) (i : Z) (v : val) :
  valid S pairs ->
  pairs !! q = Some (i, v) ->
  exists q' i' v',
    pairs !! q' = Some (i', v') /\ pos S i' = pos S i /\
    final S pairs !! pos S i = Some v'.
Proof.
  revert q v.
  induction pairs as [|[j w] ps IH] using rev_ind; intros q v Hall Hq.
  - discriminate.
  - rewrite final_snoc.
    destruct (decide (pos S j = pos S i)) as [Heq|Hne].
    + exists (length ps), j, w.
      split; [now apply list_lookup_middle|]. split; [done|].
      rewrite <- Heq. apply list_lookup_insert_eq. unfold final.
      rewrite foldl_write_length.
      eapply (pos_lt S _ (length ps)); [exact Hall|].
      now apply list_lookup_middle.
    + assert (q < length ps)%nat as Hlt.
      { destruct (decide (q = length ps)) as [->|Hq'].
        - rewrite list_lookup_middle in Hq by reflexivity. congruence.
        - apply lookup_lt_Some in Hq. rewrite length_app in Hq.
          cbn in Hq. lia. }
      rewrite lookup_app_l in Hq by done.
      apply Forall_app in Hall as [Hall _].
      destruct (IH q v Hall Hq) as (q' & i' & v' & Hq' & Hpos & Hw).
      exists q', i', v'. split; [|split; [done|]].
      * rewrite lookup_app_l; [done|]. now apply lookup_lt_Some in Hq'.
      * rewrite list_lookup_insert_ne by done. done.
Qed.

Lemma foldl_write_untouched (S : list val) (pairs : list (Z * val)) (p : nat) :
  Forall (fun w => pos S w.1 <> p) pairs -> final S pairs !! p = S !! p.
Proof.
  induction pairs as [|[j w] ps IH] using rev_ind; intros Hall.
  - reflexivity.
  - apply Forall_app in Hall as [Hall Hj].
    apply Forall_cons in Hj as [Hj _]. cbn in Hj.
    rewrite final_snoc. rewrite list_lookup_insert_ne by done.
    now apply IH.
Qed.

Lemma zip_valid (sel : list Z) (items : list val) (n : Z) :
  Forall (fun i => - n <= i < n) sel ->
  Forall (fun p : Z * val => - n <= p.1 < n) (zip sel items).
Proof.
  intros Hsel. apply Forall_lookup_2. intros q [i v] Hq.
  apply lookup_zip_Some in Hq as [Hi _].
  exact (Forall_lookup_1 _ _ _ _ Hsel Hi).
Qed.

Lemma Reindexing_setitem_slice_match (h : store) (l : loc) (S : list val)
    (I : list Z) (start stop step : option Z) (sel : list Z)
    (items : list val) :
  h !! l = Some S ->
  list_getslice I start stop step = Ok sel ->
  len sel = len items ->
  Forall (fun i => - len S <= i < len S) sel ->
  Reindexing_setitem (Ref l) I (KSlice start stop step) (VSeq items) h
  = (<[l := foldl (write_pair (len S)) S (zip sel items)]> h, None).
Proof.
  intros Hl Hsel Hlen Hall. unfold Reindexing_setitem.
  rewrite Hsel. cbn [val_len val_iter].
  rewrite (proj2 (Z.eqb_eq _ _) Hlen). cbn [negb].
  apply zip_assign_Ref; [done|done|]. now apply zip_valid.
Qed.

(** C9, as the code has it: in a slice assignment through [take(S, I)]
    the shape check [len(I[s]) == len(value)] comes before any write.  On
    a mismatch the assignment raises [ValueError] and the store is
    unchanged.  On a match, when every selected index is a valid index of
    [S], the assignment returns normally, only the list at the base's
    location changes, it keeps its length, every selected position holds a
    value paired with it, and every other position is unchanged. *)
Theorem slice_assignment_checks_shape_first (h : store) (l : loc)
    (S : list val) (I : list Z) (start stop step : option Z)
    (sel : list Z) (items : list val) :
  h !! l = Some S ->
  list_getslice I start stop step = Ok sel ->
  (len sel <> len items ->
     Reindexing_setitem (Ref l) I (KSlice start stop step) (VSeq items) h
     = (h, Some ValueError))
  /\ (len sel = len items ->
      Forall (fun i => - len S <= i < len S) sel ->
      exists S',
        Reindexing_setitem (Ref l) I (KSlice start stop step)
          (VSeq items) h = (<[l := S']> h, None) /\
        length S' = length S /\
        (forall q i, sel !! q = Some i ->
           exists q' i' v,
             sel !! q' = Some i' /\ items !! q' = Some v /\
             resolve (len S) i' = resolve (len S) i /\
             S' !! Z.to_nat (resolve (len S) i) = Some v) /\
        (forall p : nat,
           (forall i, i ∈ sel -> Z.to_nat (resolve (len S) i) <> p) ->
           S' !! p = S !! p)).
Proof.
  intros Hl Hsel. split.
  - intros Hne. unfold Reindexing_setitem. rewrite Hsel. cbn [val_len].
    destruct (len sel =? len items) eqn:E; [lia|]. reflexivity.
  - intros Hlen Hall.
    pose proof (zip_valid sel items (len S) Hall) as Hpairs.
    exists (foldl (write_pair (len S)) S (zip sel items)).
    split; [now apply Reindexing_setitem_slice_match|].
    split; [apply foldl_write_length|]. split.
    + intros q i Hq.
      assert (is_Some (items !! q)) as [v Hv].
      { apply lookup_lt_is_Some_2. apply lookup_lt_Some in Hq.
        unfold len in Hlen. lia. }
      destruct (foldl_write_holds_paired S (zip sel items) q i v Hpairs)
        as (q' & i' & v' & Hq' & Hpos & Hw).
      { apply lookup_zip_Some. done. }
      unfold pos, final in *.
      apply lookup_zip_Some in Hq' as [? ?]. exists q', i', v'.
      repeat split; try done.
      pose proof (Forall_lookup_1 _ _ _ _ Hall Hq) as Hi.
      pose proof (Forall_lookup_1 _ _ _ _ Hall H) as Hi'. cbn in Hi, Hi'.
      pose proof (resolve_range _ _ Hi). pose proof (resolve_range _ _ Hi').
      lia.
    + intros p Hp. apply (foldl_write_untouched S).
      apply Forall_lookup_2. intros q [i v] Hq. cbn.
      apply lookup_zip_Some in Hq as [Hi _].
      apply Hp. apply list_elem_of_lookup. eauto.
Qed.

(** C10, as the code has it: a slice assignment through [take(S, I)] that
    passes the shape check, when every selected index is a valid index of
    [S], leaves the base as the pairs [(index, element)] written one after
    the other, first pair to last, each once; so a base position selected
    at several places holds the element paired with its last occurrence. *)
Theorem slice_assignment_in_order_last_wins (h : store) (l : loc)
    (S : list val) (I : list Z) (start stop step : option Z)
    (sel : list Z) (items : list val) :
  h !! l = Some S ->
  list_getslice I start stop step = Ok sel ->
  len sel = len items ->
  Forall (fun i => - len S <= i < len S) sel ->
  Reindexing_setitem (Ref l) I (KSlice start stop step) (VSeq items) h
  = (<[l := foldl (write_pair (len S)) S (zip sel items)]> h, None)
  /\ forall (q : nat) (i : Z) (v : val),
       sel !! q = Some i -> items !! q = Some v ->
       (forall q' i', (q < q')%nat -> sel !! q' = Some i' ->
                      resolve (len S) i' <> resolve (len S) i) ->
       foldl (write_pair (len S)) S (zip sel items)
         !! Z.to_nat (resolve (len S) i) = Some v.
Proof.
  intros Hl Hsel Hlen Hall.
  split; [now apply Reindexing_setitem_slice_match|].
  intros q i v Hq Hv Hlast.
  pose proof (zip_valid sel items (len S) Hall) as Hpairs.
  apply (foldl_write_last_wins S (zip sel items) q i v Hpairs).
  - apply lookup_zip_Some. done.
  - intros q' i' v' Hlt Hq' Heq. unfold pos in Heq. apply lookup_zip_Some in Hq' as [Hq' _].
    apply (Hlast q' i' Hlt Hq').
    pose proof (Forall_lookup_1 _ _ _ _ Hall Hq) as Hi.
    pose proof (Forall_lookup_1 _ _ _ _ Hall Hq') as Hi'. cbn in Hi, Hi'.
    pose proof (resolve_range _ _ Hi). pose proof (resolve_range _ _ Hi').
    lia.
Qed.

Lemma slice_assignment_checks_shape_first_witness :
  Reindexing_setitem (Ref 0) [3; 0; 1] (KSlice (Some 1) None None)
    (VSeq [VInt 7]) h0 = (h0, Some ValueError)
  /\ exists S',
       Reindexing_setitem (Ref 0) [3; 0; 1] (KSlice (Some 1) None None)
         (VSeq [VInt 7; VInt 8]) h0 = (<[0%nat := S']> h0, None) /\
       length S' = length S0 /\
       (forall q i, [0; 1] !! q = Some i ->
          exists q' i' v,
            [0; 1] !! q' = Some i' /\ [VInt 7; VInt 8] !! q' = Some v /\
            resolve (len S0) i' = resolve (len S0) i /\
            S' !! Z.to_nat (resolve (len S0) i) = Some v) /\
       (forall p : nat,
          (forall i, i ∈ [0; 1] -> Z.to_nat (resolve (len S0) i) <> p) ->
          S' !! p = S0 !! p).
Proof.
  split.
  - apply (proj1 (slice_assignment_checks_shape_first h0 0%nat S0 [3; 0; 1]
                    (Some 1) None None [0; 1] [VInt 7]
                    eq_refl eq_refl)).
    vm_compute. discriminate.
  - apply (proj2 (slice_assignment_checks_shape_first h0 0%nat S0 [3; 0; 1]
                    (Some 1) None None [0; 1] [VInt 7; VInt 8]
                    eq_refl eq_refl)).
    + reflexivity.
    + repeat constructor; vm_compute; discriminate.
Defined.

(** C9, as stated, fails: the index list [[0, 5]] over a base of two
    items passes the shape check against a two-item right-hand side, the
    first pair is written, and the second raises [IndexError]; the base is
    neither unchanged nor fully written. *)
Lemma slice_assignment_partial_write :
  let h : store := {[ 0%nat := [VInt 1; VInt 2] ]} in
  let r := Reindexing_setitem (Ref 0) [0; 5] (KSlice None None None)
             (VSeq [VInt 7; VInt 8]) h in
  list_getslice [0; 5] None None None = Ok [0; 5]
  /\ len [0; 5] = len [VInt 7; VInt 8]
  /\ r.2 = Some IndexError
  /\ h !! 0%nat = Some [VInt 1; VInt 2]
  /\ r.1 !! 0%nat = Some [VInt 7; VInt 2].
Proof. vm_compute. repeat split; reflexivity. Qed.

Lemma slice_assignment_in_order_last_wins_witness :
  Reindexing_setitem (Ref 0) [2; 1; -2] (KSlice None None None)
    (VSeq [VInt 7; VInt 8; VInt 9]) h0
  = (<[0%nat := foldl (write_pair (len S0)) S0
                  (zip [2; 1; -2] [VInt 7; VInt 8; VInt 9])]> h0, None)
  /\ forall (q : nat) (i : Z) (v : val),
       [2; 1; -2] !! q = Some i -> [VInt 7; VInt 8; VInt 9] !! q = Some v ->
       (forall q' i', (q < q')%nat -> [2; 1; -2] !! q' = Some i' ->
                      resolve (len S0) i' <> resolve (len S0) i) ->
       foldl (write_pair (len S0)) S0
         (zip [2; 1; -2] [VInt 7; VInt 8; VInt 9])
         !! Z.to_nat (resolve (len S0) i) = Some v.
Proof.
  apply (slice_assignment_in_order_last_wins h0 0%nat S0 [2; 1; -2]
           None None None [2; 1; -2] [VInt 7; VInt 8; VInt 9]).
  - reflexivity.
  - reflexivity.
  - reflexivity.
  - repeat constructor; vm_compute; discriminate.
Defined.

(** C10, as stated, fails: with the selected indexes [[0, 5, 0]] over a
    base of two items the shape check passes, the first pair is written,
    the second raises [IndexError], and the third, a later occurrence of
    index 0, is never written: position 0 holds the element of the
    earlier occurrence. *)
Lemma slice_assignment_stops_at_bad_index :
  let h : store := {[ 0%nat := [VInt 1; VInt 2] ]} in
  let r := Reindexing_setitem (Ref 0) [0; 5; 0] (KSlice None None None)
             (VSeq [VInt 7; VInt 8; VInt 9]) h in
  list_getslice [0; 5; 0] None None None = Ok [0; 5; 0]
  /\ len [0; 5; 0] = len [VInt 7; VInt 8; VInt 9]
  /\ r.2 = Some IndexError
  /\ r.1 !! 0%nat = Some [VInt 7; VInt 2].
Proof. vm_compute. repeat split; reflexivity. Qed.

Example slice_assignment_duplicates :
  (Reindexing_setitem (Ref 0) [2; 1; -2] (KSlice None None None)
     (VSeq [VInt 7; VInt 8; VInt 9]) h0).1 !! 0%nat
  = Some [VInt 10; VInt 8; VInt 9; VInt 40].
Proof. vm_compute. reflexivity. Qed.

(** ** Cycles *)

Lemma len_pos (S : list val) : S <> [] -> 0 < len S.
Proof. destruct S; [done|]. unfold len. cbn. lia. Qed.

Lemma Cycle_body_Ref (h : store) (l : loc) (S : list val) (k : Z) :
  h !! l = Some S -> S <> [] ->
  exists x,
    S !! Z.to_nat (k mod len S) = Some x /\
    Cycle_getitem_body (py_len h (Ref l)) (subscript h (Ref l)) k = Ok x.
Proof.
  intros Hl HS. pose proof (len_pos S HS) as Hn.
  pose proof (Z.mod_pos_bound k (len S) Hn) as Hr.
  destruct (list_getitem_in_range S (k mod len S) Hr) as (x & Hx & Hgx).
  exists x. split; [done|].
  unfold Cycle_getitem_body. cbn [py_len subscript].
  rewrite (deref_lookup _ _ _ Hl). cbn [mbind result_bind].
  unfold py_mod. destruct (len S =? 0) eqn:E; [lia|].
  cbn [mbind result_bind]. exact Hgx.
Qed.

(** C6, as stated, fails: a bounded cycle of size [2 ^ 63] is built, but
    its length is more than the interpreter accepts, so reading its first
    item raises [OverflowError]. *)
Lemma cycle_oversized_read :
  cycle (Ref 0) (VInt (2 ^ 63)) = Ok (OSeq (Cycle (Ref 0) (2 ^ 63)))
  /\ h0 !! 0%nat = Some S0
  /\ Cycle_getitem h0 (Ref 0) (2 ^ 63) (KInt 0) = Err OverflowError.
Proof. vm_compute. repeat split; reflexivity. Qed.

(** C6, as the code has it: for a non-empty base list [S] of the store
    and a size [n] that is at most [sys.maxsize], [cycle(S, n)[k]] is
    [S[k % len(S)]] for every [0 <= k < n], whatever [n] is against
    [len(S)]; [cycle(S)[k]] is [S[k % len(S)]] for every [k >= 0], and a
    negative [k] raises [IndexError]. *)
Theorem cycle_integer_access (h : store) (l : loc) (S : list val)
    (n k : Z) :
  h !! l = Some S -> S <> [] ->
  cycle (Ref l) (VInt n) = Ok (OSeq (Cycle (Ref l) n))
  /\ cycle (Ref l) VNone = Ok (InfiniteCycle (Ref l))
  /\ (n <= PY_SSIZE_T_MAX -> 0 <= k < n ->
      exists x, S !! Z.to_nat (k mod len S) = Some x /\
                Cycle_getitem h (Ref l) n (KInt k) = Ok (OVal x))
  /\ (0 <= k ->
      exists x, S !! Z.to_nat (k mod len S) = Some x /\
                InfiniteCycle_getitem h (Ref l) (KInt k) = Ok (OVal x))
  /\ (k < 0 -> InfiniteCycle_getitem h (Ref l) (KInt k) = Err IndexError).
Proof.
  intros Hl HS. pose proof (len_pos S HS) as Hn.
  split; [reflexivity|]. split; [reflexivity|]. split; [|split].
  - intros Hfit Hk.
    destruct (Cycle_body_Ref h l S k Hl HS) as (x & Hx & Hb).
    exists x. split; [done|].
    unfold Cycle_getitem, basic_getitem, basic_getitem_int, Cycle_len.
    destruct (Z.ltb_spec n 0); [lia|].
    destruct (Z.ltb_spec PY_SSIZE_T_MAX n); [lia|].
    cbn [mbind result_bind].
    destruct (Z.ltb_spec k (- n)); [lia|].
    destruct (Z.leb_spec n k); [lia|].
    destruct (Z.ltb_spec k 0); [lia|]. cbn [orb].
    rewrite Hb. reflexivity.
  - intros Hk. destruct (Cycle_body_Ref h l S k Hl HS) as (x & Hx & Hb).
    exists x. split; [done|].
    unfold InfiniteCycle_getitem. destruct (k <? 0) eqn:E; [lia|].
    unfold Cycle_getitem_body in Hb.
    destruct (py_len h (Ref l)) as [m|]; [|discriminate].
    cbn [mbind result_bind] in *.
    destruct (py_mod k m) as [r|]; [|discriminate].
    cbn [mbind result_bind] in *. rewrite Hb. reflexivity.
  - intros Hk. unfold InfiniteCycle_getitem.
    destruct (k <? 0) eqn:E; [reflexivity|lia].
Qed.

Lemma cycle_integer_access_witness :
  (exists x, S0 !! Z.to_nat (5 mod len S0) = Some x /\
             Cycle_getitem h0 (Ref 0) 7 (KInt 5) = Ok (OVal x))
  /\ (exists x, S0 !! Z.to_nat (5 mod len S0) = Some x /\
                InfiniteCycle_getitem h0 (Ref 0) (KInt 5) = Ok (OVal x))
  /\ InfiniteCycle_getitem h0 (Ref 0) (KInt (-1)) = Err IndexError.
Proof.
  pose proof (cycle_integer_access h0 0%nat S0 7 5 eq_refl ltac:(discriminate))
    as (_ & _ & Hb & Hu & _).
  pose proof (cycle_integer_access h0 0%nat S0 7 (-1) eq_refl
                ltac:(discriminate)) as (_ & _ & _ & _ & Hneg).
  split; [apply Hb; [vm_compute; discriminate | lia]|].
  split; [apply Hu; lia|]. apply Hneg; lia.
Defined.

Lemma traverse_map_map {A B C} (f : B -> result C) (g : A -> B)
    (k : A -> C) (xs : list A) :
  Forall (fun x => f (g x) = Ok (k x)) xs ->
  traverse f (map g xs) = Ok (map k xs).
Proof.
  induction 1 as [|x xs Hx _ IH]; [reflexivity|].
  cbn. rewrite Hx. cbn. rewrite IH. reflexivity.
Qed.

Lemma slice_indices_forward (a b : Z) :
  0 <= a <= b -> slice_indices (Some a) (Some b) None b = Ok (a, b, 1).
Proof.
  intros Hab. unfold slice_indices. cbn.
  destruct (a <? 0) eqn:E1; [lia|].
  destruct (b <? 0) eqn:E2; [lia|].
  rewrite Z.min_l by lia. rewrite Z.min_id. reflexivity.
Qed.

Lemma range_len_forward (a b : Z) : a <= b -> range_len a b 1 = b - a.
Proof.
  intros Hab. unfold range_len. cbn.
  destruct (a <? b) eqn:E; [|lia].
  rewrite Z.div_1_r. lia.
Qed.

(** C5, as stated, fails: the slice [[0:2 ^ 63]] has bounds
    [0 <= a <= b], but the bounded cycle built for it has a length the
    interpreter does not accept, and the slice raises [OverflowError]. *)
Lemma infinite_cycle_slice_too_long :
  h0 !! 0%nat = Some S0
  /\ InfiniteCycle_getitem h0 (Ref 0) (KSlice (Some 0) (Some (2 ^ 63)) None)
     = Err OverflowError.
Proof. vm_compute. split; reflexivity. Qed.

(** C5, as the code has it: for a non-empty base list [S] of the store
    and bounds [0 <= a <= b], with [offset = a - a % len(S)],
    [start' = a - offset] and [stop' = b - offset]: when [stop'] is at
    most [sys.maxsize] the slice [cycle(S)[a:b]] is the list
    [[S[(a + i) % len(S)] for i in range(b - a)]], and when [stop'] is
    larger the slice raises [OverflowError], whatever the step; with any
    step the slice is the slice [[start':stop':step]] of a [Cycle] of size
    [stop'].  It is [stop'], not [b], that has to be a length: a slice far
    beyond [sys.maxsize] is served when its shifted stop is small. *)
Theorem infinite_cycle_slice (h : store) (l : loc) (S : list val)
    (a b : Z) :
  h !! l = Some S -> S <> [] -> 0 <= a <= b ->
  cycle (Ref l) VNone = Ok (InfiniteCycle (Ref l))
  /\ (b - (a - a mod len S) <= PY_SSIZE_T_MAX ->
      InfiniteCycle_getitem h (Ref l) (KSlice (Some a) (Some b) None)
      = Ok (OList (cycle_slice_spec S a b)))
  /\ (PY_SSIZE_T_MAX < b - (a - a mod len S) ->
      forall step,
        InfiniteCycle_getitem h (Ref l) (KSlice (Some a) (Some b) step)
        = Err OverflowError)
  /\ forall step,
       let offset := a - a mod len S in
       InfiniteCycle_getitem h (Ref l) (KSlice (Some a) (Some b) step)
       = Cycle_getitem h (Ref l) (b - offset)
           (KSlice (Some (a - offset)) (Some (b - offset)) step).
Proof.
  intros Hl HS Hab. pose proof (len_pos S HS) as Hn.
  pose proof (Z.mod_pos_bound a (len S) Hn) as Hr.
  assert (forall step,
    InfiniteCycle_getitem h (Ref l) (KSlice (Some a) (Some b) step)
    = Cycle_getitem h (Ref l) (b - (a - a mod len S))
        (KSlice (Some (a - (a - a mod len S)))
                (Some (b - (a - a mod len S))) step)) as Hred.
  { intros step. unfold InfiniteCycle_getitem.
    change (default 0 (Some a)) with a.
    destruct (a <? 0) eqn:E1; [lia|]. destruct (b <? 0) eqn:E2; [lia|].
    cbn [py_len]. rewrite (deref_lookup _ _ _ Hl). cbn [mbind result_bind].
    unfold py_mod. destruct (len S =? 0) eqn:E3; [lia|]. reflexivity. }
  split; [reflexivity|]. split; [|split; [|exact Hred]].
  - intros Hfit.
    rewrite Hred. unfold Cycle_getitem, basic_getitem, Cycle_len.
    destruct (Z.ltb_spec (b - (a - a mod len S)) 0); [lia|].
    destruct (Z.ltb_spec PY_SSIZE_T_MAX (b - (a - a mod len S))); [lia|].
    cbn [mbind result_bind].
    rewrite slice_indices_forward by lia. cbn [mbind result_bind].
    unfold py_range. rewrite range_len_forward by lia.
    replace (b - (a - a mod len S) - (a - (a - a mod len S))) with (b - a)
      by lia.
    unfold cycle_slice_spec.
    rewrite (traverse_map_map _ _
               (fun i : nat => S !!! Z.to_nat ((a + Z.of_nat i) mod len S)));
      [reflexivity|].
    apply Forall_forall. intros i _.
    destruct (Cycle_body_Ref h l S (a - (a - a mod len S) + Z.of_nat i * 1)
                Hl HS) as (x & Hx & Hb).
    rewrite Hb. f_equal.
    replace (a - (a - a mod len S) + Z.of_nat i * 1)
      with (a mod len S + Z.of_nat i) in Hx by lia.
    rewrite Z.add_mod_idemp_l in Hx by lia.
    symmetry. now apply list_lookup_total_correct.
  - intros Hbig step.
    rewrite Hred. unfold Cycle_getitem, basic_getitem, Cycle_len.
    destruct (Z.ltb_spec (b - (a - a mod len S)) 0); [lia|].
    destruct (Z.ltb_spec PY_SSIZE_T_MAX (b - (a - a mod len S))); [|lia].
    reflexivity.
Qed.

Lemma infinite_cycle_slice_witness :
  InfiniteCycle_getitem h0 (Ref 0)
    (KSlice (Some (2 ^ 63 + 2)) (Some (2 ^ 63 + 7)) None)
  = Ok (OList (cycle_slice_spec S0 (2 ^ 63 + 2) (2 ^ 63 + 7)))
  /\ (forall step,
        InfiniteCycle_getitem h0 (Ref 0)
          (KSlice (Some 5) (Some (2 ^ 63 + 4)) step)
        = Err OverflowError)
  /\ forall step,
       let offset := 6 - 6 mod len S0 in
       InfiniteCycle_getitem h0 (Ref 0) (KSlice (Some 6) (Some 11) step)
       = Cycle_getitem h0 (Ref 0) (11 - offset)
           (KSlice (Some (6 - offset)) (Some (11 - offset)) step).
Proof.
  pose proof (infinite_cycle_slice h0 0%nat S0 (2 ^ 63 + 2) (2 ^ 63 + 7)
                eq_refl ltac:(discriminate) ltac:(lia)) as (_ & Hfit & _ & _).
  pose proof (infinite_cycle_slice h0 0%nat S0 5 (2 ^ 63 + 4)
                eq_refl ltac:(discriminate) ltac:(lia)) as (_ & _ & Hbig & _).
  pose proof (infinite_cycle_slice h0 0%nat S0 6 11
                eq_refl ltac:(discriminate) ltac:(lia)) as (_ & _ & _ & Hred).
  split; [apply Hfit; vm_compute; discriminate|].
  split; [apply Hbig; vm_compute; reflexivity | exact Hred].
Defined.

Example infinite_cycle_slice_far :
  InfiniteCycle_getitem h0 (Ref 0)
    (KSlice (Some (2 ^ 63 + 2)) (Some (2 ^ 63 + 7)) None)
  = Ok (OList [VInt 30; VInt 40; VInt 10; VInt 20; VInt 30]).
Proof. vm_compute. reflexivity. Qed.

Example infinite_cycle_slice_scenario :
  InfiniteCycle_getitem h0 (Ref 0) (KSlice (Some 6) (Some 11) None)
  = Ok (OList [VInt 30; VInt 40; VInt 10; VInt 20; VInt 30]).
Proof. vm_compute. reflexivity. Qed.

(** ** The factories *)



(** C8: [repeat(value, times)] is an unbounded repetition when [times] is
    [None], a bounded repetition of length [times] when [times] is an
    integer greater than 1, and raises [TypeError] when [times] is 1, zero,
    negative, or neither an integer nor [None]. *)
Theorem repeat_factory (value : val) :
  repeat value VNone = Ok (InfiniteRepetition value)
  /\ (forall n : Z, 1 < n -> repeat value (VInt n) = Ok (Repetition value n))
  /\ (forall n : Z, n <= 1 -> repeat value (VInt n) = Err TypeError)
  /\ (forall items, repeat value (VSeq items) = Err TypeError).
Proof.
  split; [reflexivity|]. split; [|split; [|reflexivity]].
  - intros n Hn. unfold repeat. cbn [isint andb].
    destruct (1 <? n) eqn:E; [reflexivity|lia].
  - intros n Hn. unfold repeat. cbn [isint andb].
    destruct (1 <? n) eqn:E; [lia|reflexivity].
Qed.

Lemma repeat_factory_witness :
  repeat (VInt 5) (VInt 3) = Ok (Repetition (VInt 5) 3)
  /\ repeat (VInt 5) (VInt 1) = Err TypeError
  /\ repeat (VInt 5) (VInt (-2)) = Err TypeError.
Proof.
  pose proof (repeat_factory (VInt 5)) as (_ & Hgt & Hle & _).
  split; [apply Hgt; lia|]. split; apply Hle; lia.
Defined.

(** ** Unbounded repetition *)

Lemma range_len_nonneg (lo hi step : Z) : 0 <= range_len lo hi step.
Proof.
  unfold range_len.
  destruct (0 <? step) eqn:E1.
  - destruct (lo <? hi) eqn:E2; [|lia].
    pose proof (Z.div_pos (hi - lo - 1) step). lia.
  - destruct (step <? 0) eqn:E3; [|lia].
    destruct (hi <? lo) eqn:E4; [|lia].
    pose proof (Z.div_pos (lo - hi - 1) (- step)). lia.
Qed.

Lemma range_len_pos_iff (lo hi step : Z) :
  step <> 0 -> (0 < range_len lo hi step <-> 0 < (hi - lo) * step).
Proof.
  intros Hstep. unfold range_len.
  destruct (0 <? step) eqn:E1.
  - destruct (lo <? hi) eqn:E2.
    + pose proof (Z.div_pos (hi - lo - 1) step). split; [nia|lia].
    + split; [lia|nia].
  - destruct (step <? 0) eqn:E3; [|lia].
    destruct (hi <? lo) eqn:E4.
    + pose proof (Z.div_pos (lo - hi - 1) (- step)). split; [nia|lia].
    + split; [lia|nia].
Qed.

(** X19: a slice read of an unbounded repetition with bounds
    [start >= 0] (an absent start counting as 0) and [stop >= 0] and a
    step other than 0 returns an empty list when the slice has no item. *)
Lemma InfiniteRepetition_getitem_empty (value : val) (start : option Z)
    (stop : Z) (step : option Z) :
  0 <= default 0 start -> 0 <= stop -> default 1 step <> 0 ->
  range_len (default 0 start) stop (default 1 step) = 0 ->
  InfiniteRepetition_getitem value (KSlice start (Some stop) step)
  = Ok (OList []).
Proof.
  intros Hs He Hst Hlen. unfold InfiniteRepetition_getitem.
  pose proof (range_len_pos_iff (default 0 start) stop (default 1 step) Hst).
  destruct (default 0 start <? 0) eqn:E1; [lia|].
  destruct (stop <? 0) eqn:E2; [lia|].
  destruct (default 1 step =? 0) eqn:E3; [lia|].
  destruct ((stop - default 0 start) * default 1 step <=? 0) eqn:E4;
    [reflexivity|lia].
Qed.

(** With step 1 the count the code computes is the slice length, and the
    view is built when that length is at least 2. *)
Lemma InfiniteRepetition_getitem_unit_step (value : val) (start stop : Z) :
  0 <= start -> start + 2 <= stop ->
  InfiniteRepetition_getitem value (KSlice (Some start) (Some stop) None)
  = Ok (Repetition value (range_len start stop 1)).
Proof.
  intros Hs He. unfold InfiniteRepetition_getitem.
  change (default 0 (Some start)) with start.
  change (default 1 None) with 1.
  destruct (start <? 0) eqn:E1; [lia|].
  destruct (stop <? 0) eqn:E2; [lia|].
  change (1 =? 0) with false. cbv iota.
  destruct ((stop - start) * 1 <=? 0) eqn:E4; [lia|].
  change (0 <? 1) with true. cbv iota.
  unfold py_mod, py_floordiv. change (1 =? 0) with false.
  cbn [mbind result_bind]. rewrite Z.mod_1_r, Z.div_1_r.
  rewrite range_len_forward by lia.
  replace (stop + 0 - start) with (stop - start) by lia.
  unfold repeat. cbn [isint andb].
  destruct (1 <? stop - start) eqn:E5; [reflexivity|lia].
Qed.

(** C3 at its failing inputs.  A slice of length 1 is refused by [repeat],
    which wants [times > 1]; and the rounding of [stop] adds
    [(stop - start) % step] where the slice length needs
    [(start - stop) % step], so a step of 3 (or -3) over a span of 7 gives
    2 copies where the slice has 3 items.  The documented [2:9:2] case is
    unaffected. *)
Theorem infinite_repetition_slice_count :
  (range_len 0 1 1 = 1
   /\ InfiniteRepetition_getitem (VInt 5) (KSlice (Some 0) (Some 1) None)
      = Err TypeError)
  /\ (range_len 0 7 3 = 3
      /\ InfiniteRepetition_getitem (VInt 5)
           (KSlice (Some 0) (Some 7) (Some 3))
         = Ok (Repetition (VInt 5) 2))
  /\ (range_len 7 0 (-3) = 3
      /\ InfiniteRepetition_getitem (VInt 5)
           (KSlice (Some 7) (Some 0) (Some (-3)))
         = Ok (Repetition (VInt 5) 2))
  /\ (range_len 2 9 2 = 4
      /\ InfiniteRepetition_getitem (VInt 5)
           (KSlice (Some 2) (Some 9) (Some 2))
         = Ok (Repetition (VInt 5) 4)).
Proof. vm_compute. repeat split; reflexivity. Qed.

(** X20: a slice assignment to an unbounded repetition whose [key.start]
    is present, with bounds [start >= 0] and [stop >= 0] and a step other
    than 0, stores the last item of the right-hand side when the slice has
    an item, and changes nothing when it has none. *)
Lemma InfiniteRepetition_setitem_with_start (self_value : val)
    (start stop : Z) (step : option Z) (items : list val) :
  0 <= start -> 0 <= stop -> default 1 step <> 0 ->
  (0 < range_len start stop (default 1 step) ->
   forall last, list_getitem items (-1) = Ok last ->
     InfiniteRepetition_setitem self_value
       (KSlice (Some start) (Some stop) step) (VSeq items) = (last, None))
  /\ (range_len start stop (default 1 step) = 0 ->
      InfiniteRepetition_setitem self_value
        (KSlice (Some start) (Some stop) step) (VSeq items)
      = (self_value, None)).
Proof.
  intros Hs He Hst.
  pose proof (range_len_pos_iff start stop (default 1 step) Hst) as Hiff.
  unfold InfiniteRepetition_setitem.
  destruct (start <? 0) eqn:E1; [lia|].
  destruct (stop <? 0) eqn:E2; [lia|].
  destruct (default 1 step =? 0) eqn:E3; [lia|].
  split.
  - intros Hpos last Hlast.
    destruct (0 <? (stop - start) * default 1 step) eqn:E4; [|lia].
    cbn [val_getitem]. now rewrite Hlast.
  - intros Hzero.
    destruct (0 <? (stop - start) * default 1 step) eqn:E4;
      [lia|reflexivity].
Qed.

(** X21: a slice assignment to an unbounded repetition whose [key.start]
    is present raises [IndexError] when the start is negative or the stop
    is absent or negative, raises [ValueError] when the bounds pass and the
    step is 0, and in both cases leaves the stored value as it was. *)
Lemma InfiniteRepetition_setitem_rejects (self_value value : val)
    (start : Z) (stop step : option Z) :
  (start < 0 \/ stop = None \/ (exists e, stop = Some e /\ e < 0) ->
   InfiniteRepetition_setitem self_value (KSlice (Some start) stop step) value
   = (self_value, Some IndexError))
  /\ (0 <= start -> (exists e, stop = Some e /\ 0 <= e) -> step = Some 0 ->
      InfiniteRepetition_setitem self_value
        (KSlice (Some start) stop step) value
      = (self_value, Some ValueError)).
Proof.
  unfold InfiniteRepetition_setitem. split.
  - intros H. destruct (start <? 0) eqn:E1; [reflexivity|].
    destruct H as [H|[->|(e & -> & H)]]; [lia|reflexivity|].
    destruct (e <? 0) eqn:E2; [reflexivity|lia].
  - intros Hs (e & -> & He) ->.
    destruct (start <? 0) eqn:E1; [lia|].
    destruct (e <? 0) eqn:E2; [lia|]. reflexivity.
Qed.

(** C4 at its failing input.  The slice read defaults an absent start to
    0; the slice assignment compares [key.start] as it is, so
    [repeat(v)[:5] = [1, 2, 3, 4, 5]] raises on [None < 0] and the stored
    value stays, where [repeat(v)[0:5] = [1, 2, 3, 4, 5]] stores 5. *)
Theorem infinite_repetition_slice_set_absent_start :
  InfiniteRepetition_getitem (VInt 0) (KSlice None (Some 5) None)
  = Ok (Repetition (VInt 0) 5)
  /\ InfiniteRepetition_setitem (VInt 0) (KSlice None (Some 5) None)
       (VSeq [VInt 1; VInt 2; VInt 3; VInt 4; VInt 5])
     = (VInt 0, Some TypeError)
  /\ InfiniteRepetition_setitem (VInt 0) (KSlice (Some 0) (Some 5) None)
       (VSeq [VInt 1; VInt 2; VInt 3; VInt 4; VInt 5])
     = (VInt 5, None)
  /\ InfiniteRepetition_setitem (VInt 0) (KSlice (Some 5) (Some 5) None)
       (VSeq [VInt 1])
     = (VInt 0, None).
Proof. vm_compute. repeat split; reflexivity. Qed.

(** ** Reindexing: every integer key *)

Lemma list_getitem_resolve {A} (xs : list A) (i : Z) :
  - len xs <= i < len xs ->
  list_getitem xs (resolve (len xs) i) = list_getitem xs i.
Proof.
  intros Hi. pose proof (resolve_range _ _ Hi) as Hr.
  unfold list_getitem.
  rewrite (resolve_nonneg _ (resolve (len xs) i)) by lia. cmp_cases.
  reflexivity.
Qed.

Lemma list_getitem_Ok_range {A} (xs : list A) (i : Z) (x : A) :
  list_getitem xs i = Ok x -> - len xs <= i < len xs.
Proof. unfold list_getitem. cmp_cases; discriminate. Qed.

Lemma list_getitem_valid {A} (xs : list A) (i : Z) :
  - len xs <= i < len xs -> exists x, list_getitem xs i = Ok x.
Proof.
  intros Hi. pose proof (resolve_range _ _ Hi) as Hr.
  rewrite <- list_getitem_resolve by done.
  destruct (list_getitem_in_range xs _ Hr) as (x & _ & Hx). eauto.
Qed.

Lemma Reindexing_getitem_int_Ok (sub : Z -> result val) (I : list Z)
    (k i : Z) :
  list_getitem I k = Ok i -> Reindexing_getitem_int sub I k = sub i.
Proof.
  intros Hi. pose proof (list_getitem_Ok_range _ _ _ Hi) as Hk.
  unfold Reindexing_getitem_int, Reindexing_len. cmp_cases.
  - replace (len I + k) with (resolve (len I) k)
      by (unfold resolve; cmp_cases).
    rewrite list_getitem_resolve by lia. now rewrite Hi.
  - now rewrite Hi.
Qed.

Lemma Reindexing_setitem_int_Ok (asg : Z -> val -> cmd) (I : list Z)
    (k i : Z) (v : val) (h : store) :
  list_getitem I k = Ok i -> Reindexing_setitem_int asg I k v h = asg i v h.
Proof.
  intros Hi. pose proof (list_getitem_Ok_range _ _ _ Hi) as Hk.
  unfold Reindexing_setitem_int, Reindexing_len. cmp_cases.
  - replace (len I + k) with (resolve (len I) k)
      by (unfold resolve; cmp_cases).
    rewrite list_getitem_resolve by lia. now rewrite Hi.
  - now rewrite Hi.
Qed.

Lemma Reindexing_getitem_int_out (sub : Z -> result val) (I : list Z)
    (k : Z) :
  ~ (- len I <= k < len I) ->
  Reindexing_getitem_int sub I k = Err IndexError.
Proof.
  intros Hk. unfold Reindexing_getitem_int, Reindexing_len.
  cmp_cases; reflexivity.
Qed.

Lemma Reindexing_setitem_int_out (asg : Z -> val -> cmd) (I : list Z)
    (k : Z) (v : val) (h : store) :
  ~ (- len I <= k < len I) ->
  Reindexing_setitem_int asg I k v h = (h, Some IndexError).
Proof.
  intros Hk. unfold Reindexing_setitem_int, Reindexing_len.
  cmp_cases; reflexivity.
Qed.

(** X1: on any base, a negative key [k] of a reordering view names the
    same item as [len + k], for reading and for writing. *)
Theorem Reindexing_negative_key (h : store) (base : pyseq) (I : list Z)
    (k : Z) (v : val) :
  - len I <= k < 0 ->
  Reindexing_getitem h base I (KInt k)
  = Reindexing_getitem h base I (KInt (len I + k))
  /\ Reindexing_setitem base I (KInt k) v h
     = Reindexing_setitem base I (KInt (len I + k)) v h.
Proof.
  intros Hk.
  destruct (list_getitem_valid I k) as (i & Hi); [lia|].
  assert (list_getitem I (len I + k) = Ok i) as Hi'.
  { replace (len I + k) with (resolve (len I) k)
      by (unfold resolve; cmp_cases).
    rewrite list_getitem_resolve by lia. done. }
  unfold Reindexing_getitem, Reindexing_setitem. split.
  - now rewrite !(Reindexing_getitem_int_Ok _ I _ i).
  - now rewrite !(Reindexing_setitem_int_Ok _ I _ i).
Qed.

Lemma Reindexing_negative_key_witness :
  Reindexing_getitem h0 (Ref 0) [3; 0; 1] (KInt (-1))
  = Reindexing_getitem h0 (Ref 0) [3; 0; 1] (KInt (len [3; 0; 1] + -1))
  /\ Reindexing_setitem (Ref 0) [3; 0; 1] (KInt (-1)) (VInt 7) h0
     = Reindexing_setitem (Ref 0) [3; 0; 1] (KInt (len [3; 0; 1] + -1))
         (VInt 7) h0.
Proof.
  apply (Reindexing_negative_key h0 (Ref 0) [3; 0; 1] (-1) (VInt 7)).
  vm_compute. split; [discriminate | reflexivity].
Defined.

(** X2: on any base, an integer key outside [[-len, len)] makes a read
    raise [IndexError] and a write raise [IndexError] with the store left
    as it was. *)
Theorem Reindexing_key_out_of_range (h : store) (base : pyseq)
    (I : list Z) (k : Z) (v : val) :
  k < - len I \/ len I <= k ->
  Reindexing_getitem h base I (KInt k) = Err IndexError
  /\ Reindexing_setitem base I (KInt k) v h = (h, Some IndexError).
Proof.
  intros Hk.
  unfold Reindexing_getitem, Reindexing_setitem, Reindexing_getitem_int,
    Reindexing_setitem_int, Reindexing_len.
  split; cmp_cases; reflexivity.
Qed.

Lemma Reindexing_key_out_of_range_witness :
  Reindexing_getitem h0 (Ref 0) [3; 0; 1] (KInt 3) = Err IndexError
  /\ Reindexing_setitem (Ref 0) [3; 0; 1] (KInt 3) (VInt 7) h0
     = (h0, Some IndexError).
Proof.
  apply (Reindexing_key_out_of_range h0 (Ref 0) [3; 0; 1] 3 (VInt 7)).
  right. vm_compute. discriminate.
Defined.

(** X3: after [take(S, I)[k] = v] on a list base, with the entries of [I]
    in [[0, len S)], reading position [j] of the view gives [v] when
    [I[j]] is the index [I[k]] (the positions alias one item of [S]) and
    gives what it gave before otherwise. *)
Theorem Reindexing_write_then_read (h : store) (l : loc) (S : list val)
    (I : list Z) (k j : Z) (v : val) :
  h !! l = Some S ->
  Forall (fun i => 0 <= i < len S) I ->
  0 <= k < len I -> 0 <= j < len I ->
  exists ik ij,
    I !! Z.to_nat k = Some ik /\ I !! Z.to_nat j = Some ij /\
    Reindexing_getitem (Reindexing_setitem (Ref l) I (KInt k) v h).1
      (Ref l) I (KInt j)
    = if decide (ij = ik) then Ok (OVal v)
      else Reindexing_getitem h (Ref l) I (KInt j).
Proof.
  intros Hl HI Hk Hj.
  destruct (list_getitem_in_range I k Hk) as (ik & Hik & _).
  destruct (list_getitem_in_range I j Hj) as (ij & Hij & _).
  pose proof (Forall_lookup_1 _ _ _ _ HI Hik) as Hrk. cbn in Hrk.
  pose proof (Forall_lookup_1 _ _ _ _ HI Hij) as Hrj. cbn in Hrj.
  exists ik, ij. split; [done|]. split; [done|].
  unfold Reindexing_setitem, Reindexing_getitem.
  rewrite (Reindexing_setitem_int_in_range _ I k ik) by (done || lia).
  rewrite (assign_Ref_in_range h l S ik v Hl Hrk). cbn [fst].
  rewrite !(Reindexing_getitem_int_in_range _ I j ij) by (done || lia).
  cbn [subscript]. unfold deref. rewrite lookup_insert_eq, Hl.
  cbn [mbind result_bind].
  destruct (list_getitem_in_range S ij Hrj) as (x & Hx & Hgx).
  destruct (decide (ij = ik)) as [->|Hne].
  - rewrite (list_getitem_lookup _ ik v); [reflexivity|lia|].
    apply list_lookup_insert_eq. unfold len in Hrk. lia.
  - rewrite Hgx. rewrite (list_getitem_lookup _ ij x); [reflexivity|lia|].
    rewrite list_lookup_insert_ne by lia. done.
Qed.

Lemma Reindexing_write_then_read_witness :
  exists ik ij,
    [3; 0; 3] !! Z.to_nat 0 = Some ik /\ [3; 0; 3] !! Z.to_nat 2 = Some ij /\
    Reindexing_getitem
      (Reindexing_setitem (Ref 0) [3; 0; 3] (KInt 0) (VInt 7) h0).1
      (Ref 0) [3; 0; 3] (KInt 2)
    = if decide (ij = ik) then Ok (OVal (VInt 7))
      else Reindexing_getitem h0 (Ref 0) [3; 0; 3] (KInt 2).
Proof.
  apply (Reindexing_write_then_read h0 0%nat S0 [3; 0; 3] 0 2 (VInt 7)).
  - reflexivity.
  - repeat constructor; vm_compute; discriminate.
  - vm_compute. split; [discriminate | reflexivity].
  - vm_compute. split; [discriminate | reflexivity].
Defined.

(** ** Reindexing: views of views *)

Lemma traverse_Ok_Forall2 {A B} (f : A -> result B) (xs : list A)
    (ys : list B) :
  traverse f xs = Ok ys -> Forall2 (fun x y => f x = Ok y) xs ys.
Proof.
  revert ys. induction xs as [|x xs IH]; intros ys Htr; cbn in Htr.
  - injection Htr as <-. constructor.
  - destruct (f x) as [y|] eqn:Hx; [|discriminate]. cbn in Htr.
    destruct (traverse f xs) as [ys'|]; [|discriminate]. cbn in Htr.
    injection Htr as <-. constructor; [done|]. now apply IH.
Qed.

Lemma list_getitem_Forall2 {A B} (R : A -> B -> Prop) (xs : list A)
    (ys : list B) (k : Z) (x : A) :
  Forall2 R xs ys -> list_getitem xs k = Ok x ->
  exists y, list_getitem ys k = Ok y /\ R x y.
Proof.
  intros Hall Hx. pose proof (Forall2_length _ _ _ Hall) as Hlen.
  unfold list_getitem, len in *. rewrite <- Hlen.
  destruct ((k <? - Z.of_nat (length xs)) || (Z.of_nat (length xs) <=? k));
    [discriminate|].
  destruct (xs !! Z.to_nat (resolve (Z.of_nat (length xs)) k)) as [x'|] eqn:E;
    [|discriminate].
  injection Hx as ->.
  destruct (Forall2_lookup_l _ _ _ _ _ Hall E) as (y & Hy & HR).
  exists y. now rewrite Hy.
Qed.


Lemma as_long_Ok (x y : Z) : as_long x = Ok y -> y = x.
Proof.
  unfold as_long.
  destruct ((x <? LONG_MIN) || (LONG_MAX <? x)); congruence.
Qed.

Lemma take_nested_inv (base : pyseq) (I J : list Z) (V : pyseq) :
  take (Reindexing base I) J = Ok V ->
  exists IJ, V = Reindexing base IJ
             /\ Forall2 (fun j i => list_getitem I j = Ok i) J IJ.
Proof.
  unfold take. cbn [Reindexing_init]. intros Htake.
  destruct (traverse _ J) as [IJ|] eqn:Htr; [|discriminate].
  cbn in Htake. injection Htake as <-. exists IJ. split; [done|].
  apply traverse_Ok_Forall2 in Htr.
  eapply Forall2_impl; [exact Htr|]. cbn. intros j i Hji.
  destruct (list_getitem I j) as [x|]; [|discriminate]. cbn in Hji.
  now rewrite (as_long_Ok _ _ Hji).
Qed.

(** X4: the views stay flat.  Built over a flat sequence, [take] returns a
    flat view, and so does a slice of a flat view: no construction of the
    module stacks a [Reindexing] on a [Reindexing]. *)
Theorem views_stay_flat (s : pyseq) :
  flat s ->
  (forall idx v, take s idx = Ok v -> flat v)
  /\ (forall h k w, getitem h s k = Ok (OSeq w) -> flat w).
Proof.
  intros Hflat. split.
  - intros idx v Htake. unfold take in Htake.
    destruct s as [l|[l'|b' i'|b' n'] i|b n]; cbn in *; try done;
      try (injection Htake as <-; exact I).
    + destruct (traverse _ idx); [|discriminate]. cbn in Htake.
      injection Htake as <-. exact I.
    + destruct (traverse _ idx); [|discriminate]. cbn in Htake.
      injection Htake as <-. exact I.
  - intros h k w Hget. destruct s as [l|b i|b n]; cbn in Hget.
    + destruct (deref h l); [|discriminate]. cbn in Hget.
      destruct k as [j|ka kb kc|]; [| |discriminate].
      * destruct (list_getitem _ j); discriminate.
      * destruct (list_getslice _ ka kb kc); discriminate.
    + destruct k as [j|ka kb kc|]; [| |discriminate].
      * unfold Reindexing_getitem in Hget.
        destruct (Reindexing_getitem_int _ i j); discriminate.
      * unfold Reindexing_getitem in Hget.
        destruct (list_getslice i ka kb kc) as [sel|]; [|discriminate].
        cbn in Hget. destruct b as [l'|b' i'|b' n']; cbn in *; try done.
        -- injection Hget as <-. exact I.
        -- injection Hget as <-. exact I.
    + unfold Cycle_getitem, basic_getitem in Hget.
      destruct k as [j|ka kb kc|]; [| |discriminate].
      * destruct (basic_getitem_int _ _ j); discriminate.
      * destruct (Cycle_len n); [|discriminate]. cbn in Hget.
        destruct (slice_indices ka kb kc _) as [[[lo hi] st]|]; [|discriminate].
        cbn in Hget. destruct (traverse _ _); discriminate.
Qed.

Lemma views_stay_flat_witness :
  (forall idx v, take (Reindexing (Ref 0) [3; 0; 1]) idx = Ok v -> flat v)
  /\ (forall h k w,
        getitem h (Reindexing (Ref 0) [3; 0; 1]) k = Ok (OSeq w) -> flat w).
Proof.
  apply (views_stay_flat (Reindexing (Ref 0) [3; 0; 1])). exact I.
Defined.

(** X5: the flattening changes no behaviour.  When [take] of indexes [J]
    over a view of indexes [I] succeeds, the view it returns reads and
    writes, at every integer key and in every store, as the view of [J]
    stacked on the view of [I] would, errors included, and its length is
    [len J]. *)
Theorem take_nested_same_behaviour (base : pyseq) (I J : list Z)
    (V : pyseq) :
  take (Reindexing base I) J = Ok V ->
  (forall h, py_len h V = Ok (len J))
  /\ (forall h k,
        subscript h V k = subscript h (Reindexing (Reindexing base I) J) k)
  /\ (forall h k v,
        assign V k v h = assign (Reindexing (Reindexing base I) J) k v h).
Proof.
  intros Htake.
  destruct (take_nested_inv base I J V Htake) as (IJ & -> & Hall).
  pose proof (Forall2_length _ _ _ Hall) as Hlen.
  assert (len IJ = len J) as HlenZ by (unfold len; lia).
  split; [|split].
  - intros h. cbn. unfold Reindexing_len. now rewrite HlenZ.
  - intros h k. cbn [subscript].
    destruct (decide (- len J <= k < len J)) as [Hk|Hk].
    + destruct (list_getitem_valid J k Hk) as (j & Hj).
      destruct (list_getitem_Forall2 _ J IJ k j Hall Hj) as (i & Hi & Hji).
      rewrite (Reindexing_getitem_int_Ok _ IJ k i Hi).
      rewrite (Reindexing_getitem_int_Ok _ J k j Hj).
      now rewrite (Reindexing_getitem_int_Ok _ I j i Hji).
    + rewrite !Reindexing_getitem_int_out; [reflexivity|done|lia].
  - intros h k v. cbn [assign].
    destruct (decide (- len J <= k < len J)) as [Hk|Hk].
    + destruct (list_getitem_valid J k Hk) as (j & Hj).
      destruct (list_getitem_Forall2 _ J IJ k j Hall Hj) as (i & Hi & Hji).
      rewrite (Reindexing_setitem_int_Ok _ IJ k i v h Hi).
      rewrite (Reindexing_setitem_int_Ok _ J k j v h Hj).
      now rewrite (Reindexing_setitem_int_Ok _ I j i v h Hji).
    + rewrite !Reindexing_setitem_int_out; [reflexivity|done|lia].
Qed.

Lemma take_nested_same_behaviour_witness :
  (forall h, py_len h (Reindexing (Ref 0) [1; 3; 1]) = Ok (len [-1; 0; 2]))
  /\ (forall h k,
        subscript h (Reindexing (Ref 0) [1; 3; 1]) k
        = subscript h (Reindexing (Reindexing (Ref 0) [3; 0; 1]) [-1; 0; 2]) k)
  /\ (forall h k v,
        assign (Reindexing (Ref 0) [1; 3; 1]) k v h
        = assign (Reindexing (Reindexing (Ref 0) [3; 0; 1]) [-1; 0; 2])
            k v h).
Proof.
  apply (take_nested_same_behaviour (Ref 0) [3; 0; 1] [-1; 0; 2]).
  reflexivity.
Defined.



(** ** Reindexing: slices of a view *)

Lemma range_elem_bounds (lo hi st q : Z) :
  0 <= q < range_len lo hi st ->
  (0 < st -> lo <= lo + q * st < hi)
  /\ (st < 0 -> hi < lo + q * st <= lo).
Proof.
  unfold range_len. intros Hq. split; intros Hst.
  - destruct (0 <? st) eqn:E1; [|lia].
    destruct (lo <? hi) eqn:E2; [|lia].
    pose proof (Z.mul_div_le (hi - lo - 1) st Hst) as Hd.
    assert (q * st <= (hi - lo - 1) / st * st)
      by (apply Z.mul_le_mono_nonneg_r; lia).
    assert (0 <= q * st) by (apply Z.mul_nonneg_nonneg; lia). lia.
  - destruct (0 <? st) eqn:E1; [lia|].
    destruct (st <? 0) eqn:E2; [|lia].
    destruct (hi <? lo) eqn:E3; [|lia].
    pose proof (Z.mul_div_le (lo - hi - 1) (- st) ltac:(lia)) as Hd.
    assert (q * - st <= (lo - hi - 1) / - st * - st)
      by (apply Z.mul_le_mono_nonneg_r; lia).
    assert (0 <= q * - st) by (apply Z.mul_nonneg_nonneg; lia).
    replace (q * st) with (- (q * - st)) by lia. lia.
Qed.

Lemma slice_indices_in_bounds (start stop step : option Z)
    (n lo hi st : Z) :
  0 <= n ->
  slice_indices start stop step n = Ok (lo, hi, st) ->
  st <> 0 /\ forall q, 0 <= q < range_len lo hi st -> 0 <= lo + q * st < n.
Proof.
  intros Hn. unfold slice_indices.
  destruct (default 1 step =? 0) eqn:E0; [discriminate|].
  intros Heq. injection Heq as Hlo Hhi Hst. subst st.
  split; [lia|]. intros q Hq.
  destruct (range_elem_bounds lo hi (default 1 step) q Hq) as [Hpos Hneg].
  destruct (default 1 step <? 0) eqn:E1.
  - assert (-1 <= hi /\ lo <= n - 1) as [? ?].
    { subst lo hi. split.
      - destruct stop as [x|]; [|lia]. destruct (Z.ltb_spec x 0); lia.
      - destruct start as [x|]; [|lia]. destruct (Z.ltb_spec x 0); lia. }
    lia.
  - assert (0 <= lo /\ hi <= n) as [? ?].
    { subst lo hi. split.
      - destruct start as [x|]; [|lia]. destruct (Z.ltb_spec x 0); lia.
      - destruct stop as [x|]; [|lia]. destruct (Z.ltb_spec x 0); lia. }
    lia.
Qed.

Lemma py_range_getitem (lo hi st q : Z) :
  0 <= q < range_len lo hi st ->
  list_getitem (py_range lo hi st) q = Ok (lo + q * st).
Proof.
  intros Hq. apply list_getitem_lookup; [lia|].
  unfold py_range. rewrite list_lookup_fmap, lookup_seq_lt by lia.
  cbn. now rewrite Z2Nat.id by lia.
Qed.

Lemma len_py_range (lo hi st : Z) :
  len (py_range lo hi st) = range_len lo hi st.
Proof.
  unfold len, py_range. rewrite length_map, length_seq.
  pose proof (range_len_nonneg lo hi st). lia.
Qed.

Lemma traverse_all_Ok {A B} (f : A -> result B) (xs : list A) :
  Forall (fun x => exists y, f x = Ok y) xs ->
  exists ys, traverse f xs = Ok ys
             /\ Forall2 (fun x y => f x = Ok y) xs ys.
Proof.
  induction 1 as [|x xs [y Hy] _ (ys & Htr & Hall)].
  - exists []. split; [reflexivity|constructor].
  - exists (y :: ys). split; [|now constructor].
    cbn. rewrite Hy. cbn. rewrite Htr. reflexivity.
Qed.

Lemma list_getslice_items {A} (xs : list A) (start stop step : option Z)
    (lo hi st : Z) :
  slice_indices start stop step (len xs) = Ok (lo, hi, st) ->
  exists sel,
    list_getslice xs start stop step = Ok sel
    /\ len sel = range_len lo hi st
    /\ forall q, 0 <= q < range_len lo hi st ->
         exists x, list_getitem sel q = Ok x
                   /\ list_getitem xs (lo + q * st) = Ok x.
Proof.
  intros Hidx.
  destruct (slice_indices_in_bounds _ _ _ _ _ _ _ (len_nonneg xs) Hidx)
    as [Hst Hin].
  destruct (traverse_all_Ok (list_getitem xs) (py_range lo hi st))
    as (sel & Htr & Hall).
  { apply Forall_lookup_2. intros q e He.
    pose proof (lookup_lt_Some _ _ _ He) as Hq.
    pose proof (len_py_range lo hi st) as Hl. unfold len in Hl.
    assert (0 <= Z.of_nat q < range_len lo hi st) as Hq' by lia.
    pose proof (py_range_getitem lo hi st _ Hq') as Hg.
    unfold list_getitem in Hg. rewrite resolve_nonneg in Hg by lia.
    rewrite Nat2Z.id, He in Hg.
    destruct (_ || _) in Hg; [discriminate|]. injection Hg as ->.
    apply list_getitem_valid. specialize (Hin _ Hq'). lia. }
  exists sel. split; [|split].
  - unfold list_getslice. rewrite Hidx. exact Htr.
  - rewrite <- len_py_range. unfold len.
    now rewrite (Forall2_length _ _ _ Hall).
  - intros q Hq.
    exact (list_getitem_Forall2 _ _ _ q _ Hall (py_range_getitem _ _ _ q Hq)).
Qed.

(** X7: a slice of a flat view never raises when the step is not 0,
    however far its bounds lie outside the view, and reads no item of the
    base: it is a view over the same base whose length is the length of
    the slice and whose item [q] is, in any store, item [lo + q * st] of
    the sliced view, for [(lo, hi, st) = slice.indices(len)]. *)
Theorem Reindexing_slice_read (h : store) (base : pyseq) (I : list Z)
    (start stop step : option Z) (lo hi st : Z) :
  flat (Reindexing base I) ->
  slice_indices start stop step (len I) = Ok (lo, hi, st) ->
  exists sel,
    Reindexing_getitem h base I (KSlice start stop step)
    = Ok (OSeq (Reindexing base sel))
    /\ py_len h (Reindexing base sel) = Ok (range_len lo hi st)
    /\ forall h' q, 0 <= q < range_len lo hi st ->
         subscript h' (Reindexing base sel) q
         = subscript h' (Reindexing base I) (lo + q * st).
Proof.
  intros Hflat Hidx.
  destruct (list_getslice_items I start stop step lo hi st Hidx)
    as (sel & Hsel & Hlen & Hitems).
  exists sel. split; [|split].
  - unfold Reindexing_getitem. rewrite Hsel. cbn [mbind result_bind].
    destruct base; cbn in *; done.
  - cbn. unfold Reindexing_len. now rewrite Hlen.
  - intros h' q Hq. destruct (Hitems q Hq) as (x & Hx & Hx').
    cbn [subscript].
    rewrite (Reindexing_getitem_int_Ok _ sel q x Hx).
    now rewrite (Reindexing_getitem_int_Ok _ I _ x Hx').
Qed.

Lemma Reindexing_slice_read_witness :
  exists sel,
    Reindexing_getitem h0 (Ref 0) [3; 0; 1; 2] (KSlice (Some 9) None (Some (-2)))
    = Ok (OSeq (Reindexing (Ref 0) sel))
    /\ py_len h0 (Reindexing (Ref 0) sel) = Ok (range_len 3 (-1) (-2))
    /\ forall h' q, 0 <= q < range_len 3 (-1) (-2) ->
         subscript h' (Reindexing (Ref 0) sel) q
         = subscript h' (Reindexing (Ref 0) [3; 0; 1; 2]) (3 + q * -2).
Proof.
  apply (Reindexing_slice_read h0 (Ref 0) [3; 0; 1; 2]
           (Some 9) None (Some (-2)) 3 (-1) (-2)).
  - exact I.
  - reflexivity.
Defined.

(** X8: a slice with step 0 is refused before anything else happens: the
    read raises [ValueError], and the assignment raises [ValueError] and
    leaves the store as it was, whatever the right-hand side. *)
Theorem Reindexing_slice_zero_step (h : store) (base : pyseq) (I : list Z)
    (start stop : option Z) (value : val) :
  Reindexing_getitem h base I (KSlice start stop (Some 0)) = Err ValueError
  /\ Reindexing_setitem base I (KSlice start stop (Some 0)) value h
     = (h, Some ValueError).
Proof. split; reflexivity. Qed.

(** ** Cycles: iteration, periodicity, empty bases *)

Lemma range_len_count (n : Z) : range_len 0 n 1 = Z.max 0 n.
Proof.
  unfold range_len. cbn. destruct (Z.ltb_spec 0 n); [|lia].
  rewrite Z.div_1_r. lia.
Qed.

(** X9: over a non-empty list [S], a complete iteration of [cycle(S, n)]
    yields [max(0, n)] items, the one at position [k] being
    [S[k % len(S)]]; a size of zero or less yields nothing. *)
Theorem Cycle_iter_items (h : store) (l : loc) (S : list val) (n : Z) :
  h !! l = Some S -> S <> [] ->
  exists items,
    Cycle_iter h (Ref l) n = Ok items
    /\ len items = Z.max 0 n
    /\ forall k, 0 <= k < n ->
         exists x, S !! Z.to_nat (k mod len S) = Some x
                   /\ list_getitem items k = Ok x.
Proof.
  intros Hl HS. unfold Cycle_iter.
  destruct (traverse_all_Ok
              (Cycle_getitem_body (py_len h (Ref l)) (subscript h (Ref l)))
              (py_range 0 n 1)) as (items & Htr & Hall).
  { apply Forall_forall. intros k _.
    destruct (Cycle_body_Ref h l S k Hl HS) as (x & _ & Hx). eauto. }
  exists items. split; [exact Htr|]. split.
  - rewrite <- range_len_count, <- len_py_range. unfold len.
    now rewrite (Forall2_length _ _ _ Hall).
  - intros k Hk.
    assert (0 <= k < range_len 0 n 1) as Hk' by (rewrite range_len_count; lia).
    pose proof (py_range_getitem 0 n 1 k Hk') as Hg.
    replace (0 + k * 1) with k in Hg by lia.
    destruct (list_getitem_Forall2 _ _ _ k _ Hall Hg) as (x & Hx & Hb).
    destruct (Cycle_body_Ref h l S k Hl HS) as (x' & Hx' & Hb').
    exists x. split; [congruence|done].
Qed.

Lemma Cycle_iter_items_witness :
  exists items,
    Cycle_iter h0 (Ref 0) 6 = Ok items
    /\ len items = Z.max 0 6
    /\ forall k, 0 <= k < 6 ->
         exists x, S0 !! Z.to_nat (k mod len S0) = Some x
                   /\ list_getitem items k = Ok x.
Proof.
  apply (Cycle_iter_items h0 0%nat S0 6).
  - reflexivity.
  - discriminate.
Defined.

(** X10: the unbounded cycle is periodic: when the wrapped sequence has
    length [n > 0], the keys [k] and [k + m * n] give the same result for
    every [k >= 0] and [m >= 0], whatever the wrapped sequence is. *)
Theorem InfiniteCycle_periodic (h : store) (sequence : pyseq)
    (n k m : Z) :
  py_len h sequence = Ok n -> 0 < n -> 0 <= k -> 0 <= m ->
  InfiniteCycle_getitem h sequence (KInt (k + m * n))
  = InfiniteCycle_getitem h sequence (KInt k).
Proof.
  intros Hlen Hn Hk Hm. unfold InfiniteCycle_getitem.
  assert (0 <= m * n) by (apply Z.mul_nonneg_nonneg; lia).
  destruct (Z.ltb_spec (k + m * n) 0); [lia|].
  destruct (Z.ltb_spec k 0); [lia|].
  rewrite Hlen. cbn [mbind result_bind]. unfold py_mod.
  destruct (Z.eqb_spec n 0); [lia|].
  now rewrite Z.mod_add by lia.
Qed.

Lemma InfiniteCycle_periodic_witness :
  InfiniteCycle_getitem h0 (Ref 0) (KInt (1 + 3 * 4))
  = InfiniteCycle_getitem h0 (Ref 0) (KInt 1).
Proof.
  apply (InfiniteCycle_periodic h0 (Ref 0) 4 1 3); [reflexivity|lia|lia|lia].
Defined.

(** X11: over an empty wrapped sequence nothing can be read from the
    unbounded cycle: every key [k >= 0] and every slice with bounds
    [start >= 0], [stop >= 0], the empty slice [[0:0]] included, raises
    [ZeroDivisionError]; so does the iteration of a bounded cycle of size
    [n > 0], while a bounded cycle of size 0 or less iterates as empty. *)
Theorem cycle_of_empty_sequence (h : store) (sequence : pyseq)
    (k stop n : Z) (start step : option Z) :
  py_len h sequence = Ok 0 ->
  (0 <= k -> InfiniteCycle_getitem h sequence (KInt k) = Err ZeroDivisionError)
  /\ (0 <= default 0 start -> 0 <= stop ->
      InfiniteCycle_getitem h sequence (KSlice start (Some stop) step)
      = Err ZeroDivisionError)
  /\ (0 < n -> Cycle_iter h sequence n = Err ZeroDivisionError)
  /\ (n <= 0 -> Cycle_iter h sequence n = Ok []).
Proof.
  intros Hlen. unfold InfiniteCycle_getitem.
  split; [|split; [|split]].
  - intros Hk. destruct (Z.ltb_spec k 0); [lia|]. now rewrite Hlen.
  - intros Hs He. destruct (Z.ltb_spec (default 0 start) 0); [lia|].
    destruct (Z.ltb_spec stop 0); [lia|]. now rewrite Hlen.
  - intros Hn. unfold Cycle_iter, py_range.
    rewrite range_len_count.
    destruct (Z.to_nat (Z.max 0 n)) as [|c] eqn:E; [lia|].
    cbn. unfold Cycle_getitem_body. now rewrite Hlen.
  - intros Hn. unfold Cycle_iter, py_range.
    rewrite range_len_count. now replace (Z.to_nat (Z.max 0 n)) with 0%nat by lia.
Qed.

Lemma cycle_of_empty_sequence_witness :
  InfiniteCycle_getitem {[ 0%nat := [] ]} (Ref 0) (KInt 2)
  = Err ZeroDivisionError
  /\ InfiniteCycle_getitem {[ 0%nat := [] ]} (Ref 0)
       (KSlice None (Some 0) None) = Err ZeroDivisionError
  /\ Cycle_iter {[ 0%nat := [] ]} (Ref 0) 3 = Err ZeroDivisionError
  /\ Cycle_iter {[ 0%nat := [] ]} (Ref 0) 0 = Ok [].
Proof.
  pose proof (cycle_of_empty_sequence {[ 0%nat := [] ]} (Ref 0) 2 0 3 None None
                eq_refl) as (Hk & Hs & Hpos & _).
  pose proof (cycle_of_empty_sequence {[ 0%nat := [] ]} (Ref 0) 2 0 0 None None
                eq_refl) as (_ & _ & _ & Hzero).
  split; [apply Hk; lia|]. split; [apply Hs; cbn; lia|].
  split; [apply Hpos; lia | apply Hzero; lia].
Defined.

(** X12: a slice of the unbounded cycle is refused with [IndexError]
    when its start is negative, its stop is absent, or its stop is
    negative; the check comes first, so this holds on any wrapped
    sequence and in any store. *)
Theorem InfiniteCycle_slice_rejected (h : store) (sequence : pyseq)
    (start stop step : option Z) :
  default 0 start < 0 \/ stop = None \/ (exists e, stop = Some e /\ e < 0) ->
  InfiniteCycle_getitem h sequence (KSlice start stop step) = Err IndexError.
Proof.
  intros Hbad. unfold InfiniteCycle_getitem.
  destruct (Z.ltb_spec (default 0 start) 0); [reflexivity|].
  destruct Hbad as [?|[->|(e & -> & He)]]; [lia|reflexivity|].
  destruct (Z.ltb_spec e 0); [reflexivity|lia].
Qed.

Lemma InfiniteCycle_slice_rejected_witness :
  InfiniteCycle_getitem h0 (Ref 0) (KSlice (Some 2) None None)
  = Err IndexError.
Proof.
  apply (InfiniteCycle_slice_rejected h0 (Ref 0) (Some 2) None None).
  right. left. reflexivity.
Defined.

(** X13: iteration and subscript of the unbounded cycle agree: when the
    first [n] steps of the iteration yield [items], there are [n] of them
    and the item yielded at step [k] is what the key [k] reads. *)
Theorem InfiniteCycle_iter_agrees (h : store) (sequence : pyseq) (n : nat)
    (items : list val) :
  InfiniteCycle_iter h sequence n = Ok items ->
  length items = n
  /\ forall (k : nat) x, items !! k = Some x ->
       InfiniteCycle_getitem h sequence (KInt (Z.of_nat k)) = Ok (OVal x).
Proof.
  unfold InfiniteCycle_iter. intros Htr.
  apply traverse_Ok_Forall2 in Htr.
  pose proof (Forall2_length _ _ _ Htr) as Hlen.
  rewrite length_map, length_seq in Hlen. split; [done|].
  intros k x Hx.
  destruct (Forall2_lookup_r _ _ _ _ _ Htr Hx) as (i & Hi & Hb).
  rewrite list_lookup_fmap in Hi.
  pose proof (lookup_lt_Some _ _ _ Hx) as Hk.
  rewrite lookup_seq_lt in Hi by lia. cbn in Hi. injection Hi as <-.
  unfold InfiniteCycle_getitem.
  destruct (Z.ltb_spec (Z.of_nat k) 0); [lia|].
  unfold Cycle_getitem_body in Hb.
  destruct (py_len h sequence) as [m|]; [|discriminate].
  cbn [mbind result_bind] in *.
  destruct (py_mod (Z.of_nat k) m) as [r|]; [|discriminate].
  cbn [mbind result_bind] in *. now rewrite Hb.
Qed.

Lemma InfiniteCycle_iter_agrees_witness :
  length [VInt 10; VInt 20; VInt 30; VInt 40; VInt 10; VInt 20] = 6%nat
  /\ forall (k : nat) x,
       [VInt 10; VInt 20; VInt 30; VInt 40; VInt 10; VInt 20] !! k = Some x ->
       InfiniteCycle_getitem h0 (Ref 0) (KInt (Z.of_nat k)) = Ok (OVal x).
Proof.
  apply (InfiniteCycle_iter_agrees h0 (Ref 0) 6). reflexivity.
Defined.

(** Over a non-empty list the first [n] steps of the iteration always
    yield. *)
Lemma InfiniteCycle_iter_total (h : store) (l : loc) (S : list val)
    (n : nat) :
  h !! l = Some S -> S <> [] ->
  exists items, InfiniteCycle_iter h (Ref l) n = Ok items.
Proof.
  intros Hl HS. unfold InfiniteCycle_iter.
  destruct (traverse_all_Ok
              (Cycle_getitem_body (py_len h (Ref l)) (subscript h (Ref l)))
              (map Z.of_nat (seq 0 n))) as (items & Htr & _); [|eauto].
  apply Forall_forall. intros k _.
  destruct (Cycle_body_Ref h l S k Hl HS) as (x & _ & Hx). eauto.
Qed.

(** ** Views of views across classes *)

(** X14: an unbounded cycle over a reordering view reads through both:
    for a list [S], a non-empty index list [I] with entries in
    [[0, len S)] and [k >= 0], [cycle(take(S, I))[k]] is
    [S[I[k % len(I)]]]. *)
Theorem cycle_of_take (h : store) (l : loc) (S : list val) (I : list Z)
    (k : Z) :
  h !! l = Some S -> I <> [] ->
  Forall (fun i => 0 <= i < len S) I ->
  0 <= k ->
  exists i x,
    I !! Z.to_nat (k mod len I) = Some i /\ S !! Z.to_nat i = Some x /\
    (V ← take (Ref l) I; c ← cycle V VNone;
     match c with
     | InfiniteCycle sequence => InfiniteCycle_getitem h sequence (KInt k)
     | _ => Err TypeError
     end) = Ok (OVal x).
Proof.
  intros Hl HI Hall Hk.
  assert (0 < len I) as Hn by (destruct I; [done|unfold len; cbn; lia]).
  pose proof (Z.mod_pos_bound k (len I) Hn) as Hr.
  destruct (list_getitem_in_range I _ Hr) as (i & Hi & _).
  pose proof (Forall_lookup_1 _ _ _ _ Hall Hi) as Hir. cbn in Hir.
  destruct (list_getitem_in_range S i Hir) as (x & Hx & Hgx).
  exists i, x. split; [done|]. split; [done|].
  cbn [take Reindexing_init cycle mbind result_bind].
  unfold InfiniteCycle_getitem. destruct (Z.ltb_spec k 0); [lia|].
  cbn [py_len mbind result_bind]. unfold py_mod, Reindexing_len.
  destruct (Z.eqb_spec (len I) 0); [lia|]. cbn [mbind result_bind subscript].
  rewrite (Reindexing_getitem_int_in_range _ I _ i) by (done || lia).
  rewrite (deref_lookup _ _ _ Hl). cbn [mbind result_bind].
  now rewrite Hgx.
Qed.

Lemma cycle_of_take_witness :
  exists i x,
    [3; 0; 1] !! Z.to_nat (7 mod len [3; 0; 1]) = Some i /\
    S0 !! Z.to_nat i = Some x /\
    (V ← take (Ref 0) [3; 0; 1]; c ← cycle V VNone;
     match c with
     | InfiniteCycle sequence => InfiniteCycle_getitem h0 sequence (KInt 7)
     | _ => Err TypeError
     end) = Ok (OVal x).
Proof.
  apply (cycle_of_take h0 0%nat S0 [3; 0; 1] 7).
  - reflexivity.
  - discriminate.
  - repeat constructor; vm_compute; discriminate.
  - lia.
Defined.

(** ** Reindexing: a slice assignment as integer assignments *)

Lemma zip_assign_ext (asg1 asg2 : Z -> val -> cmd) (xs ys : list Z)
    (items : list val) (h : store) :
  Forall2 (fun x y => forall v h', asg1 x v h' = asg2 y v h') xs ys ->
  zip_assign asg1 (zip xs items) h = zip_assign asg2 (zip ys items) h.
Proof.
  intros Hall. revert items h.
  induction Hall as [|x y xs ys Hxy _ IH]; intros items h; [reflexivity|].
  destruct items as [|v items]; [reflexivity|].
  cbn [zip zip_with zip_assign]. rewrite Hxy.
  destruct (asg2 y v h) as [h' [e|]]; [reflexivity|]. apply IH.
Qed.

(** X15: on any base, a slice assignment whose right-hand side has the
    length of the slice is the run of integer assignments
    [view[p] = item], for [p] over the range of
    [slice.indices(len(view))] and the items in order, ended by the first
    one that raises. *)
Theorem Reindexing_slice_assignment_unfolds (h : store) (base : pyseq)
    (I : list Z) (start stop step : option Z) (lo hi st : Z)
    (items : list val) :
  slice_indices start stop step (len I) = Ok (lo, hi, st) ->
  len items = range_len lo hi st ->
  Reindexing_setitem base I (KSlice start stop step) (VSeq items) h
  = zip_assign (fun p v => Reindexing_setitem base I (KInt p) v)
      (zip (py_range lo hi st) items) h.
Proof.
  intros Hidx Hlen.
  assert (exists sel,
    list_getslice I start stop step = Ok sel
    /\ len sel = range_len lo hi st
    /\ Forall2 (fun e y => list_getitem I e = Ok y) (py_range lo hi st) sel)
    as (sel & Hsel & Hlsel & Hall).
  { destruct (list_getslice_items I start stop step lo hi st Hidx)
      as (sel & Hsel & Hl & _).
    exists sel. split; [done|]. split; [done|].
    unfold list_getslice in Hsel. rewrite Hidx in Hsel.
    now apply traverse_Ok_Forall2. }
  unfold Reindexing_setitem at 1. rewrite Hsel. cbn [val_len val_iter].
  destruct (Z.eqb_spec (len sel) (len items)) as [_|Hne]; [|lia].
  cbn [negb]. symmetry. apply zip_assign_ext.
  eapply Forall2_impl; [exact Hall|]. cbn. intros p y Hp v h'.
  now apply Reindexing_setitem_int_Ok.
Qed.

Lemma Reindexing_slice_assignment_unfolds_witness :
  Reindexing_setitem (Ref 0) [3; 0; 1; 2] (KSlice (Some 9) None (Some (-2)))
    (VSeq [VInt 7; VInt 8]) h0
  = zip_assign (fun p v => Reindexing_setitem (Ref 0) [3; 0; 1; 2] (KInt p) v)
      (zip (py_range 3 (-1) (-2)) [VInt 7; VInt 8]) h0.
Proof.
  apply (Reindexing_slice_assignment_unfolds h0 (Ref 0) [3; 0; 1; 2]
           (Some 9) None (Some (-2)) 3 (-1) (-2) [VInt 7; VInt 8]).
  - reflexivity.
  - reflexivity.
Defined.

(** ** Unbounded repetition: the shared slot and the slice count *)

Lemma InfiniteRepetition_getitem_empty_witness :
  InfiniteRepetition_getitem (VInt 5) (KSlice None (Some 0) (Some 3))
  = Ok (OList []).
Proof.
  apply (InfiniteRepetition_getitem_empty (VInt 5) None 0 (Some 3));
    [cbn; lia | lia | cbn; lia | reflexivity].
Defined.

Lemma InfiniteRepetition_setitem_with_start_witness :
  InfiniteRepetition_setitem (VInt 0) (KSlice (Some 1) (Some 8) (Some 3))
    (VSeq [VInt 7; VInt 8; VInt 9]) = (VInt 9, None)
  /\ InfiniteRepetition_setitem (VInt 0) (KSlice (Some 8) (Some 1) (Some 3))
       (VSeq [VInt 7; VInt 8; VInt 9]) = (VInt 0, None).
Proof.
  split.
  - apply (proj1 (InfiniteRepetition_setitem_with_start (VInt 0) 1 8 (Some 3)
                    [VInt 7; VInt 8; VInt 9]
                    ltac:(lia) ltac:(lia) ltac:(cbn; lia)));
      [vm_compute; reflexivity | reflexivity].
  - apply (proj2 (InfiniteRepetition_setitem_with_start (VInt 0) 8 1 (Some 3)
                    [VInt 7; VInt 8; VInt 9]
                    ltac:(lia) ltac:(lia) ltac:(cbn; lia))).
    reflexivity.
Defined.

Lemma InfiniteRepetition_setitem_rejects_witness :
  InfiniteRepetition_setitem (VInt 0) (KSlice (Some 1) None None) (VInt 7)
  = (VInt 0, Some IndexError)
  /\ InfiniteRepetition_setitem (VInt 0) (KSlice (Some 1) (Some 4) (Some 0))
       (VInt 7) = (VInt 0, Some ValueError).
Proof.
  split.
  - apply (proj1 (InfiniteRepetition_setitem_rejects (VInt 0) (VInt 7) 1
                    None None)).
    right. left. reflexivity.
  - apply (proj2 (InfiniteRepetition_setitem_rejects (VInt 0) (VInt 7) 1
                    (Some 4) (Some 0))); [lia | exists 4; split; [done|lia] | done].
Defined.

(** X16: every position of an unbounded repetition is one slot: after an
    assignment at any key [k >= 0] every key [j >= 0] reads the assigned
    value; a negative key is refused with [IndexError], by the read and by
    the assignment, which then keeps the stored value. *)
Theorem InfiniteRepetition_shared_slot (value v : val) (k j : Z) :
  (0 <= k -> 0 <= j ->
   InfiniteRepetition_setitem value (KInt k) v = (v, None)
   /\ InfiniteRepetition_getitem
        (InfiniteRepetition_setitem value (KInt k) v).1 (KInt j)
      = Ok (OVal v))
  /\ (k < 0 ->
      InfiniteRepetition_getitem value (KInt k) = Err IndexError
      /\ InfiniteRepetition_setitem value (KInt k) v
         = (value, Some IndexError)).
Proof.
  unfold InfiniteRepetition_setitem, InfiniteRepetition_getitem. split.
  - intros Hk Hj. destruct (Z.ltb_spec k 0); [lia|]. cbn [fst].
    destruct (Z.ltb_spec j 0); [lia|]. done.
  - intros Hk. destruct (Z.ltb_spec k 0); [done|lia].
Qed.

Lemma InfiniteRepetition_shared_slot_witness :
  (InfiniteRepetition_setitem (VInt 0) (KInt 3) (VInt 7) = (VInt 7, None)
   /\ InfiniteRepetition_getitem
        (InfiniteRepetition_setitem (VInt 0) (KInt 3) (VInt 7)).1 (KInt 90)
      = Ok (OVal (VInt 7)))
  /\ (InfiniteRepetition_getitem (VInt 0) (KInt (-1)) = Err IndexError
      /\ InfiniteRepetition_setitem (VInt 0) (KInt (-1)) (VInt 7)
         = (VInt 0, Some IndexError)).
Proof.
  split.
  - apply (proj1 (InfiniteRepetition_shared_slot (VInt 0) (VInt 7) 3 90)); lia.
  - apply (proj2 (InfiniteRepetition_shared_slot (VInt 0) (VInt 7) (-1) 0)).
    lia.
Defined.

Lemma rounded_quotient (d m : Z) :
  0 < d -> 0 < m ->
  0 <= (d + d mod m) / m <= (d - 1) / m + 1
  /\ (d mod m = 0 -> (d + d mod m) / m = (d - 1) / m + 1).
Proof.
  intros Hd Hm. pose proof (Z.mod_pos_bound d m Hm) as Hr.
  assert ((d - 1) / m + 1 = (d - 1 + 1 * m) / m) as Hn
    by (now rewrite Z.div_add by lia).
  split; [split|].
  - apply Z.div_pos; lia.
  - rewrite Hn. apply Z.div_le_mono; lia.
  - intros Hz. rewrite Hz, Z.add_0_r.
    pose proof (Z.div_mod d m ltac:(lia)) as Hdm. rewrite Hz in Hdm.
    rewrite Hn.
    apply (Z.div_unique (d - 1 + 1 * m) m (d / m) (m - 1)); lia.
Qed.

Lemma rounded_count_bounds (start stop step : Z) :
  step <> 0 -> 0 < range_len start stop step ->
  0 <= rounded_count start stop step <= range_len start stop step
  /\ ((stop - start) mod step = 0 ->
      rounded_count start stop step = range_len start stop step).
Proof.
  intros Hstep Hpos.
  pose proof (proj1 (range_len_pos_iff start stop step Hstep) Hpos) as Hspan.
  clear Hpos.
  destruct (Z.lt_trichotomy step 0) as [Hneg|[?|Hs]]; [|lia|].
  - remember (- step) as m eqn:Hm.
    assert (step = - m) as -> by lia. clear Hm Hstep.
    assert (0 < m) as Hmpos by lia.
    assert (0 < start - stop) as Hd by nia.
    unfold rounded_count, range_len.
    destruct (Z.ltb_spec 0 (- m)); [lia|].
    destruct (Z.ltb_spec (- m) 0); [|lia].
    destruct (Z.ltb_spec stop start); [|lia].
    rewrite !Z.opp_involutive.
    replace (m + start - stop) with (start - stop + 1 * m) by lia.
    rewrite Z.mod_add by lia.
    replace (stop - (start - stop) mod m - start)
      with (- (start - stop + (start - stop) mod m)) by lia.
    rewrite Z.div_opp_opp by lia.
    destruct (rounded_quotient (start - stop) m Hd Hmpos) as [Hb Heq].
    split; [exact Hb|]. intros Hz. apply Heq.
    replace (stop - start) with (- (start - stop)) in Hz by lia.
    rewrite Z.mod_opp_opp in Hz by lia. lia.
  - assert (0 < stop - start) as Hd by nia.
    unfold rounded_count, range_len.
    destruct (Z.ltb_spec 0 step); [|lia].
    destruct (Z.ltb_spec start stop); [|lia].
    replace (step + stop - start) with (stop - start + 1 * step) by lia.
    rewrite Z.mod_add by lia.
    replace (stop + (stop - start) mod step - start)
      with (stop - start + (stop - start) mod step) by lia.
    exact (rounded_quotient (stop - start) step Hd Hs).
Qed.

Lemma InfiniteRepetition_getitem_count (value : val) (start : option Z)
    (stop : Z) (step : option Z) :
  0 <= default 0 start -> 0 <= stop -> default 1 step <> 0 ->
  0 < range_len (default 0 start) stop (default 1 step) ->
  InfiniteRepetition_getitem value (KSlice start (Some stop) step)
  = repeat value
      (VInt (rounded_count (default 0 start) stop (default 1 step))).
Proof.
  intros Hs He Hst Hpos.
  pose proof (proj1 (range_len_pos_iff _ _ _ Hst) Hpos) as Hspan.
  unfold InfiniteRepetition_getitem, rounded_count.
  destruct (Z.ltb_spec (default 0 start) 0); [lia|].
  destruct (Z.ltb_spec stop 0); [lia|].
  destruct (Z.eqb_spec (default 1 step) 0); [lia|].
  destruct (Z.leb_spec ((stop - default 0 start) * default 1 step) 0); [lia|].
  unfold py_mod, py_floordiv.
  destruct (Z.ltb_spec 0 (default 1 step)).
  - destruct (Z.eqb_spec (default 1 step) 0); [lia|]. reflexivity.
  - destruct (Z.eqb_spec (- default 1 step) 0); [lia|].
    cbn [mbind result_bind].
    destruct (Z.eqb_spec (default 1 step) 0); [lia|]. reflexivity.
Qed.

(** X17: a slice read of an unbounded repetition, with bounds
    [start >= 0] (an absent start counting as 0) and [stop >= 0], a step
    other than 0 and at least one item in the slice, returns either a
    [TypeError] or a repetition of the stored value whose length is at
    least 2 and at most the length of the slice; when the step divides
    [stop - start] and the slice has at least 2 items, it returns exactly
    as many copies as the slice has items. *)
Theorem InfiniteRepetition_slice_read (value : val) (start : option Z)
    (stop : Z) (step : option Z) :
  0 <= default 0 start -> 0 <= stop -> default 1 step <> 0 ->
  0 < range_len (default 0 start) stop (default 1 step) ->
  (InfiniteRepetition_getitem value (KSlice start (Some stop) step)
   = Err TypeError
   \/ exists c,
        2 <= c <= range_len (default 0 start) stop (default 1 step)
        /\ InfiniteRepetition_getitem value (KSlice start (Some stop) step)
           = Ok (Repetition value c))
  /\ ((stop - default 0 start) mod default 1 step = 0 ->
      2 <= range_len (default 0 start) stop (default 1 step) ->
      InfiniteRepetition_getitem value (KSlice start (Some stop) step)
      = Ok (Repetition value
              (range_len (default 0 start) stop (default 1 step)))).
Proof.
  intros Hs He Hst Hpos.
  rewrite (InfiniteRepetition_getitem_count value start stop step Hs He Hst
             Hpos).
  destruct (rounded_count_bounds _ _ _ Hst Hpos) as [Hb Heq].
  unfold repeat. cbn [isint andb]. split.
  - destruct (Z.ltb_spec 1 (rounded_count (default 0 start) stop
                              (default 1 step))); [|now left].
    right. eexists. split; [|reflexivity]. lia.
  - intros Hz Hn. rewrite (Heq Hz).
    destruct (Z.ltb_spec 1 (range_len (default 0 start) stop
                              (default 1 step))); [reflexivity|lia].
Qed.

Lemma InfiniteRepetition_slice_read_witness :
  (InfiniteRepetition_getitem (VInt 5) (KSlice (Some 9) (Some 0) (Some (-3)))
   = Err TypeError
   \/ exists c,
        2 <= c <= range_len 9 0 (-3)
        /\ InfiniteRepetition_getitem (VInt 5)
             (KSlice (Some 9) (Some 0) (Some (-3)))
           = Ok (Repetition (VInt 5) c))
  /\ InfiniteRepetition_getitem (VInt 5)
       (KSlice (Some 9) (Some 0) (Some (-3)))
     = Ok (Repetition (VInt 5) (range_len 9 0 (-3))).
Proof.
  pose proof (InfiniteRepetition_slice_read (VInt 5) (Some 9) 0 (Some (-3))
                ltac:(cbn; lia) ltac:(lia) ltac:(cbn; lia)
                ltac:(vm_compute; reflexivity)) as [Hany Hexact].
  split; [exact Hany|].
  apply Hexact; [reflexivity | vm_compute; discriminate].
Defined.

(** X18: a slice read of an unbounded repetition is refused with
    [IndexError] when its start is negative, its stop is absent or its stop
    is negative, and with [ValueError] when the bounds pass and the step
    is 0. *)
Theorem InfiniteRepetition_slice_read_rejected (value : val)
    (start stop step : option Z) :
  (default 0 start < 0 \/ stop = None \/ (exists e, stop = Some e /\ e < 0) ->
   InfiniteRepetition_getitem value (KSlice start stop step)
   = Err IndexError)
  /\ (0 <= default 0 start -> (exists e, stop = Some e /\ 0 <= e) ->
      step = Some 0 ->
      InfiniteRepetition_getitem value (KSlice start stop step)
      = Err ValueError).
Proof.
  unfold InfiniteRepetition_getitem. split.
  - intros Hbad. destruct (Z.ltb_spec (default 0 start) 0); [reflexivity|].
    destruct Hbad as [?|[->|(e & -> & He)]]; [lia|reflexivity|].
    destruct (Z.ltb_spec e 0); [reflexivity|lia].
  - intros Hs (e & -> & He) ->.
    destruct (Z.ltb_spec (default 0 start) 0); [lia|].
    destruct (Z.ltb_spec e 0); [lia|]. reflexivity.
Qed.

Lemma InfiniteRepetition_slice_read_rejected_witness :
  InfiniteRepetition_getitem (VInt 5) (KSlice (Some (-1)) (Some 4) None)
  = Err IndexError
  /\ InfiniteRepetition_getitem (VInt 5) (KSlice None (Some 4) (Some 0))
     = Err ValueError.
Proof.
  split.
  - apply (proj1 (InfiniteRepetition_slice_read_rejected (VInt 5)
                    (Some (-1)) (Some 4) None)).
    left. cbn. lia.
  - apply (proj2 (InfiniteRepetition_slice_read_rejected (VInt 5)
                    None (Some 4) (Some 0)));
      [cbn; lia | exists 4; split; [done|lia] | done].
Defined.

(** ** Bounded cycle: writes *)

Lemma subscript_Cycle_in_range (h : store) (s : pyseq) (n j : Z) :
  n <= PY_SSIZE_T_MAX -> 0 <= j < n ->
  subscript h (Cycle s n) j
  = Cycle_getitem_body (py_len h s) (subscript h s) j.
Proof.
  intros Hfit Hj. cbn [subscript]. unfold basic_getitem_int, Cycle_len.
  destruct (Z.ltb_spec n 0); [lia|].
  destruct (Z.ltb_spec PY_SSIZE_T_MAX n); [lia|]. cbn [mbind result_bind].
  cmp_cases. reflexivity.
Qed.

(** X22: over a non-empty list [S] and for a size [n] that is at most
    [sys.maxsize], the assignment [cycle(S, n)[k] = v] with [0 <= k < n]
    replaces position [k % len(S)] of [S] and nothing else; afterwards a
    position [0 <= j < n] of the cycle reads [v] when [j % len(S)] is
    [k % len(S)] and reads what it read before otherwise. *)
Theorem Cycle_write_through (h : store) (l : loc) (S : list val)
    (n k j : Z) (v : val) :
  h !! l = Some S -> S <> [] -> n <= PY_SSIZE_T_MAX ->
  0 <= k < n -> 0 <= j < n ->
  assign (Cycle (Ref l) n) k v h
  = (<[l := <[Z.to_nat (k mod len S) := v]> S]> h, None)
  /\ subscript (<[l := <[Z.to_nat (k mod len S) := v]> S]> h)
       (Cycle (Ref l) n) j
     = if decide (j mod len S = k mod len S) then Ok v
       else subscript h (Cycle (Ref l) n) j.
Proof.
  intros Hl HS Hfit Hk Hj. pose proof (len_pos S HS) as Hn.
  pose proof (Z.mod_pos_bound k (len S) Hn) as Hrk.
  pose proof (Z.mod_pos_bound j (len S) Hn) as Hrj.
  set (S' := <[Z.to_nat (k mod len S) := v]> S).
  assert (len S' = len S) as Hlen
    by (unfold len, S'; now rewrite length_insert).
  assert (S' <> []) as HS'.
  { intros E. rewrite E in Hlen. unfold len in Hlen, Hn. cbn in Hlen. lia. }
  split.
  - cbn [assign]. unfold basic_setitem_int, Cycle_len.
    destruct (Z.ltb_spec n 0); [lia|].
    destruct (Z.ltb_spec PY_SSIZE_T_MAX n); [lia|]. cmp_cases.
    unfold Cycle_setitem_body. cbn [py_len].
    rewrite (deref_lookup _ _ _ Hl). cbn [mbind result_bind].
    unfold py_mod. destruct (Z.eqb_spec (len S) 0); [lia|].
    now apply assign_Ref_in_range.
  - rewrite !subscript_Cycle_in_range by done.
    destruct (Cycle_body_Ref (<[l := S']> h) l S' j
                ltac:(apply lookup_insert_eq) HS') as (x' & Hx' & ->).
    destruct (Cycle_body_Ref h l S j Hl HS) as (x & Hx & ->).
    rewrite Hlen in Hx'. unfold S' in Hx'.
    destruct (decide (j mod len S = k mod len S)) as [Heq|Hne].
    + rewrite Heq, list_lookup_insert_eq in Hx' by (unfold len in *; lia).
      congruence.
    + rewrite list_lookup_insert_ne in Hx' by lia. congruence.
Qed.

Lemma Cycle_write_through_witness :
  assign (Cycle (Ref 0) 10) 6 (VInt 7) h0
  = (<[0%nat := <[Z.to_nat (6 mod len S0) := VInt 7]> S0]> h0, None)
  /\ subscript (<[0%nat := <[Z.to_nat (6 mod len S0) := VInt 7]> S0]> h0)
       (Cycle (Ref 0) 10) 2
     = if decide (2 mod len S0 = 6 mod len S0) then Ok (VInt 7)
       else subscript h0 (Cycle (Ref 0) 10) 2.
Proof.
  apply (Cycle_write_through h0 0%nat S0 10 6 2 (VInt 7));
    [reflexivity | discriminate | vm_compute; discriminate | lia | lia].
Defined.
